(** * Download quota and PDF pipeline of gomaner's API router

    The router source exists in three copies that differ in small places:
    - [api_first]  : src/routes/api.js, first module (lines 1-471);
    - [api_second] : src/routes/api.js, second module (lines 472-712);
    - [part1]      : src/unnamed/part_001, second module (lines 429-724).
    Each copy is an instance of the record [Variant] below; every function
    of the embedding takes the variant and follows the shared source text,
    branching on the variant exactly where the copies differ.

    JavaScript strings are sequences of UTF-16 code units, modelled as
    [list N]. Mongo collections are lists (findOne returns the first match)
    or, for users looked up by id, a [gmap]. The in-memory [guestCache]
    (a JS Map) is a [gmap] from string keys to counters. *)

From Stdlib Require Import String Ascii NArith List Lia.
From stdpp Require Import base gmap list.

Abbreviation jstr := (list N).

(** String literal of the source, as UTF-16 code units (ASCII only). *)
Definition js (s : string) : jstr :=
  map (fun a => N_of_ascii a) (list_ascii_of_string s).

Definition jstr_eqb (a b : jstr) : bool := bool_decide (a = b).

(** ** Data model (Mongo documents and process state) *)

Record User := mkUser {
  isPremium : bool;
  downloadCount : nat;
  email : jstr
}.

Record Manga := mkManga {
  m_id : jstr;          (* manga._id *)
  m_slug : jstr;
  title : jstr;
  downloads : nat       (* statistic bumped by part_001's finish handler *)
}.

Record Chapter := mkChapter {
  manga_id : jstr;
  c_slug : jstr;
  chapter_index : jstr;         (* the template rendering `${chapter.chapter_index}` *)
  images : option (list jstr)   (* None: field missing *)
}.

(** The world a request sees: the database (which may be unreachable, in
    which case every Mongo call throws) and the process-local guest cache. *)
Record World := mkWorld {
  db_up : bool;
  users : gmap jstr User;
  guestCache : gmap jstr nat;
  mangas : list Manga;
  chapters : list Chapter
}.

(** The Express request: inputs, and the locals the middleware writes. *)
Record Req := mkReq {
  r_user : option jstr;               (* req.user && req.user.id *)
  r_xff : option jstr;                (* req.headers['x-forwarded-for'] *)
  r_remote : jstr;                    (* req.socket.remoteAddress *)
  r_slug : jstr;
  r_chapterSlug : jstr;
  userDoc : option (jstr * User);     (* req.userDoc (its _id, the doc) *)
  isGuest : bool;                     (* req.isGuest *)
  clientIp : option jstr              (* req.clientIp *)
}.

Definition set_userDoc (d : jstr * User) (r : Req) : Req :=
  mkReq (r_user r) (r_xff r) (r_remote r) (r_slug r) (r_chapterSlug r)
        (Some d) (isGuest r) (clientIp r).

Definition set_guest (ip : jstr) (r : Req) : Req :=
  mkReq (r_user r) (r_xff r) (r_remote r) (r_slug r) (r_chapterSlug r)
        (userDoc r) true (Some ip).

Local Set Warnings "-register-all".

(** JSON values sent by res.json. *)
Inductive Json :=
| JStr (s : jstr)
| JNum (n : nat)
| JBool (b : bool)
| JObj (fields : list (jstr * Json)).

Definition error_body (msg : jstr) : Json :=
  JObj [(js "success", JBool false); (js "message", JStr msg)].

(** ** Address handling *)

(** [req.headers['x-forwarded-for'] || req.socket.remoteAddress]:
    an absent or empty header is falsy. *)
Definition raw_ip (r : Req) : jstr :=
  match r_xff r with
  | Some ((_ :: _) as s) => s
  | _ => r_remote r
  end.

(** Code units removed by String.prototype.trim (WhiteSpace and
    LineTerminator of ECMA-262). *)
Definition is_js_space (c : N) : bool :=
  (9 <=? c)%N && (c <=? 13)%N || (c =? 32)%N || (c =? 160)%N || (c =? 5760)%N
  || (8192 <=? c)%N && (c <=? 8202)%N || (c =? 8232)%N || (c =? 8233)%N
  || (c =? 8239)%N || (c =? 8287)%N || (c =? 12288)%N || (c =? 65279)%N.

Fixpoint drop_space (s : jstr) : jstr :=
  match s with
  | c :: s' => if is_js_space c then drop_space s' else s
  | [] => []
  end.

Definition js_trim (s : jstr) : jstr := rev (drop_space (rev (drop_space s))).

Definition comma : N := 44.

(** [s.split(',')[0]] *)
Fixpoint split_comma_first (s : jstr) : jstr :=
  match s with
  | c :: s' => if (c =? comma)%N then [] else c :: split_comma_first s'
  | [] => []
  end.

(** [if (ip.includes(',')) ip = ip.split(',')[0].trim();] *)
Definition normalize_ip (ip : jstr) : jstr :=
  if existsb (fun c => (c =? comma)%N) ip then js_trim (split_comma_first ip)
  else ip.

(** ** The three copies of the router *)

Record Variant := mkVariant {
  guest_key : jstr -> jstr;          (* what is done to [ip] before use *)
  user_limit_msg : jstr;
  guest_limit_msg : jstr;
  commit_needs_ip : bool;            (* finish handler tests [req.clientIp] *)
  counts_downloads : bool            (* finish handler bumps Manga.downloads *)
}.

Definition api_first : Variant := mkVariant
  (fun ip => ip)
  (js "Limit harian (50) tercapai. Upgrade Premium!")
  (js "Limit Guest (10) tercapai. Silakan Login!")
  false false.

Definition api_second : Variant := mkVariant
  normalize_ip
  (js "Limit harian (50) tercapai. Upgrade Premium!")
  (js "Limit Guest (10) tercapai. Silakan Login atau ganti IP!")
  true false.

Definition part1 : Variant := mkVariant
  normalize_ip
  (js "Limit harian akun (50) tercapai. Upgrade Premium!")
  (js "Limit Guest (10) tercapai. Silakan Login untuk lanjut!")
  true true.

Definition LIMIT_GUEST_IP : nat := 10.
Definition USER_LIMIT : nat := 50.

(** ** checkDownloadLimit *)

(** Outcome of the middleware: it either answers the request itself
    ([res.status(code).json(body)]) or calls [next()]. *)
Inductive Decision :=
| Respond (status : nat) (body : Json)
| Next.

(** The middleware reads the world and writes only request locals. *)
Definition checkDownloadLimit (v : Variant) (w : World) (r : Req) : Decision * Req :=
  match r_user r with
  | Some id =>
      if negb (db_up w) then
        (Respond 500 (error_body (js "Server Error checking limit")), r)
      else
        match users w !! id with
        | None => (Respond 404 (error_body (js "User not found")), r)
        | Some user =>
            if isPremium user then (Next, r)
            else if USER_LIMIT <=? downloadCount user then
              (Respond 403 (error_body (user_limit_msg v)), r)
            else (Next, set_userDoc (id, user) r)
        end
  | None =>
      let ip := guest_key v (raw_ip r) in
      let currentUsage := default 0 (guestCache w !! ip) in
      if LIMIT_GUEST_IP <=? currentUsage then
        (Respond 403 (error_body (guest_limit_msg v)), r)
      else (Next, set_guest ip r)
  end.

Example normalize_ip_ex :
  normalize_ip (js "203.0.113.5, 70.41.3.18") = js "203.0.113.5".
Proof. reflexivity. Qed.

(** ** World updates *)

Definition with_users (us : gmap jstr User) (w : World) : World :=
  mkWorld (db_up w) us (guestCache w) (mangas w) (chapters w).

Definition with_guests (g : gmap jstr nat) (w : World) : World :=
  mkWorld (db_up w) (users w) g (mangas w) (chapters w).

Definition with_mangas (ms : list Manga) (w : World) : World :=
  mkWorld (db_up w) (users w) (guestCache w) ms (chapters w).

(** [{ $inc: { downloadCount: 1 } }] *)
Definition inc_downloadCount (u : User) : User :=
  mkUser (isPremium u) (S (downloadCount u)) (email u).

(** [Manga.findByIdAndUpdate(id, { $inc: { downloads: 1 } })] *)
Definition inc_downloads (id : jstr) (ms : list Manga) : list Manga :=
  map (fun m => if jstr_eqb (m_id m) id
                then mkManga (m_id m) (m_slug m) (title m) (S (downloads m))
                else m) ms.

(** ** The download route *)

(** What the response (and the PDF document piped into it) sees, in order. *)
Inductive Event :=
| SendJson (status : nat) (body : Json)     (* res.status(status).json(body) *)
| SendText (status : nat) (text : jstr)     (* res.status(status).send(text) *)
| SendStatus (status : nat)                 (* res.sendStatus(status) *)
| SetHeader (name value : jstr)             (* res.setHeader(name, value) *)
| Fetch (url : jstr)                        (* axios.get(url, ...) issued *)
| Page (width height : nat)                 (* doc.addPage + doc.image *)
| DocEnd.                                   (* doc.end() *)

(** Result of fetching one URL and transcoding it with sharp: the network
    and the image decoder are the environment of the request. *)
Inductive Outcome :=
| FetchFailed
| TranscodeFailed
| Transcoded (width height : nat).

(** [for (const url of chapter.images) { try { ... } catch (e) { ... } }] *)
Fixpoint image_loop (net : jstr -> Outcome) (urls : list jstr) : list Event :=
  match urls with
  | [] => []
  | url :: rest =>
      Fetch url ::
      (match net url with
       | Transcoded wd ht => [Page wd ht]
       | _ => []
       end) ++ image_loop net rest
  end.

Definition is_alnum (c : N) : bool :=
  (48 <=? c)%N && (c <=? 57)%N || (65 <=? c)%N && (c <=? 90)%N
  || (97 <=? c)%N && (c <=? 122)%N.

(** [manga.title.replace(/[^a-zA-Z0-9]/g, '-')] (a non-unicode regex:
    it matches single code units). *)
Definition clean_title (t : jstr) : jstr :=
  map (fun c => if is_alnum c then c else 45%N) t.

Definition dquote : jstr := [34%N].

Definition content_disposition (m : Manga) (c : Chapter) : jstr :=
  js "attachment; filename=" ++ dquote ++ clean_title (title m) ++ js "-Ch"
  ++ chapter_index c ++ js ".pdf" ++ dquote.

(** [Manga.findOne({ slug })] *)
Definition find_manga (slug : jstr) (ms : list Manga) : option Manga :=
  find (fun m => jstr_eqb (m_slug m) slug) ms.

(** [Chapter.findOne({ manga_id: manga._id, slug: chapterSlug })] *)
Definition find_chapter (mid slug : jstr) (cs : list Chapter) : option Chapter :=
  find (fun c => jstr_eqb (manga_id c) mid && jstr_eqb (c_slug c) slug) cs.

(** [res.setHeader] validates the value and throws ERR_INVALID_CHAR for a
    code unit outside tab, 0x20-0x7E and 0x80-0xFF. *)
Definition header_char_ok (c : N) : bool :=
  (c =? 9)%N || (32 <=? c)%N && (c <=? 126)%N || (128 <=? c)%N && (c <=? 255)%N.

Definition header_value_ok (v : jstr) : bool := forallb header_char_ok v.

(** A [res.on('finish', ...)] listener, closing over [req] and [manga]. *)
Record Listener := mkListener {
  l_req : Req;
  l_manga : jstr       (* manga._id *)
}.

(** The async route handler after [next()]: the events it produces and the
    finish listeners it registers. An unreachable database makes the first
    Mongo call throw, and so does a Content-Disposition value that
    [res.setHeader] refuses (after Content-Type was set, before the document
    is created and the listener registered); the outer catch answers both
    with a 500 text, the headers not being sent yet. *)
Definition download_handler (w : World) (r : Req) (net : jstr -> Outcome)
  : list Event * list Listener :=
  if negb (db_up w) then ([SendText 500 (js "Error generating PDF")], [])
  else
  match find_manga (r_slug r) (mangas w) with
  | None => ([SendJson 404 (error_body (js "Manga not found"))], [])
  | Some manga =>
      match find_chapter (m_id manga) (r_chapterSlug r) (chapters w) with
      | Some chapter =>
          match images chapter with
          | Some ((_ :: _) as imgs) =>
              if header_value_ok (content_disposition manga chapter) then
                ([SetHeader (js "Content-Type") (js "application/pdf");
                  SetHeader (js "Content-Disposition")
                            (content_disposition manga chapter)]
                 ++ image_loop net imgs ++ [DocEnd],
                 [mkListener r (m_id manga)])
              else
                ([SetHeader (js "Content-Type") (js "application/pdf");
                  SendText 500 (js "Error generating PDF")], [])
          | _ => ([SendJson 404 (error_body (js "Images not found"))], [])
          end
      | None => ([SendJson 404 (error_body (js "Images not found"))], [])
      end
  end.

(** The body of the finish listener ("Update Limit setelah selesai stream").
    A throwing Mongo call jumps to the catch, which only logs. *)
Definition commit (v : Variant) (w : World) (l : Listener) : World :=
  let req := l_req l in
  match userDoc req with
  | Some (id, _) =>
      if db_up w then
        let w1 := with_users (alter inc_downloadCount id (users w)) w in
        if counts_downloads v then with_mangas (inc_downloads (l_manga l) (mangas w1)) w1
        else w1
      else w
  | None =>
      let w1 :=
        match isGuest req, clientIp req with
        | true, Some ip =>
            if commit_needs_ip v && bool_decide (ip = []) then w
            else
              let cur := default 0 (guestCache w !! ip) in
              with_guests (<[ip := cur + 1]> (guestCache w)) w
        | _, _ => w
        end in
      if counts_downloads v then
        (if db_up w1 then with_mangas (inc_downloads (l_manga l) (mangas w1)) w1 else w1)
      else w1
  end.

(** The 'finish' event of the response: every registered listener runs. *)
Definition fire_finish (v : Variant) (ls : list Listener) (w : World) : World :=
  fold_left (commit v) ls w.

(** Listeners registered for a request (after the middleware ran). *)
Definition download_listeners (v : Variant) (w : World) (r : Req)
  (net : jstr -> Outcome) : list Listener :=
  match checkDownloadLimit v w r with
  | (Respond _ _, _) => []
  | (Next, r1) => snd (download_handler w r1 net)
  end.

(** [GET /download/:slug/:chapterSlug] served to its end: [finished] says
    whether the response emitted 'finish' (false: client went away). *)
Definition serve_download (v : Variant) (w : World) (r : Req)
  (net : jstr -> Outcome) (finished : bool) : World * list Event :=
  match checkDownloadLimit v w r with
  | (Respond code body, _) => (w, [SendJson code body])
  | (Next, r1) =>
      let (evs, ls) := download_handler w r1 net in
      (if finished then fire_finish v ls w else w, evs)
  end.

(** ** GET /stats *)

Definition infinity_sign : jstr := [8734%N].   (* '∞' *)

Definition stats_body (type : jstr) (usage : nat) (limit : Json) : Json :=
  JObj [(js "type", JStr type); (js "usage", JNum usage); (js "limit", limit)].

(** The route body; every branch, the catch included, ends in res.json. *)
Definition stats (v : Variant) (w : World) (r : Req) : Json :=
  match r_user r with
  | Some id =>
      if negb (db_up w) then stats_body (js "guest") 0 (JNum LIMIT_GUEST_IP)
      else
        match users w !! id with
        | None => stats_body (js "guest") 0 (JNum LIMIT_GUEST_IP)
        | Some user =>
            if isPremium user
            then stats_body (js "premium") (downloadCount user) (JStr infinity_sign)
            else stats_body (js "user") (downloadCount user) (JNum USER_LIMIT)
        end
  | None =>
      let ip := guest_key v (raw_ip r) in
      let usage := default 0 (guestCache w !! ip) in
      stats_body (js "guest") usage (JNum LIMIT_GUEST_IP)
  end.

Definition serve_stats (v : Variant) (w : World) (r : Req) : World * list Event :=
  (w, [SendJson 200 (stats v w r)]).

(** ** POST /trakteer-webhook *)

(** [User.findOneAndUpdate({ email })] selects the first account, in the
    store's order, whose e-mail matches. *)
Definition find_by_email (us : gmap jstr User) (em : jstr) : option jstr :=
  fst <$> List.find (fun p => jstr_eqb (email p.2) em) (map_to_list us).

(** The update [{ isPremium: true }]. *)
Definition make_premium (u : User) : User := mkUser true (downloadCount u) (email u).

Definition serve_webhook (w : World) (supporter_email status : jstr) : World * list Event :=
  if jstr_eqb status (js "Success") then
    if db_up w then
      (match find_by_email (users w) supporter_email with
       | Some id => with_users (alter make_premium id (users w)) w
       | None => w
       end, [SendStatus 200])
    else (w, [SendStatus 500])
  else (w, [SendStatus 200]).

(** ** The server, one request after another *)

Inductive Call :=
| CallDownload (r : Req) (net : jstr -> Outcome) (finished : bool)
| CallStats (r : Req)
| CallWebhook (supporter_email status : jstr)
| DbAvailability (up : bool).      (* the database goes down or comes back *)

(** Express builds a new request object for every request: the locals the
    middleware may write are unset. *)
Definition fresh (r : Req) : Req :=
  mkReq (r_user r) (r_xff r) (r_remote r) (r_slug r) (r_chapterSlug r) None false None.

Definition step (v : Variant) (w : World) (c : Call) : World * list Event :=
  match c with
  | CallDownload r net fin => serve_download v w (fresh r) net fin
  | CallStats r => serve_stats v w (fresh r)
  | CallWebhook em st => serve_webhook w em st
  | DbAvailability up =>
      (mkWorld up (users w) (guestCache w) (mangas w) (chapters w), [])
  end.

Fixpoint run (v : Variant) (w : World) (cs : list Call) : World :=
  match cs with
  | [] => w
  | c :: rest => run v (fst (step v w c)) rest
  end.

(** ** Concrete inputs *)

Definition guest_req (xff : option jstr) : Req :=
  mkReq None xff (js "10.0.0.1") (js "one-piece") (js "chapter-1") None false None.

Definition user_req (id : jstr) : Req :=
  mkReq (Some id) None (js "10.0.0.1") (js "one-piece") (js "chapter-1") None false None.

Definition manga0 : Manga := mkManga (js "m1") (js "one-piece") (js "One Piece!") 7.

Definition chapter0 : Chapter :=
  mkChapter (js "m1") (js "chapter-1") (js "1") (Some [js "u1"; js "u2"; js "u3"]).

Definition net0 (url : jstr) : Outcome :=
  if jstr_eqb url (js "u2") then FetchFailed else Transcoded 800 1200.

Definition world0 (g : gmap jstr nat) (us : gmap jstr User) : World :=
  mkWorld true us g [manga0] [chapter0].



Example serve_download_ex :
  snd (serve_download part1 (world0 ∅ ∅) (guest_req None) net0 true) =
  [SetHeader (js "Content-Type") (js "application/pdf");
   SetHeader (js "Content-Disposition")
     (js "attachment; filename=" ++ dquote ++ js "One-Piece--Ch1.pdf" ++ dquote);
   Fetch (js "u1"); Page 800 1200; Fetch (js "u2"); Fetch (js "u3"); Page 800 1200;
   DocEnd].
Proof. reflexivity. Qed.

Example serve_download_commit_ex :
  guestCache (fst (serve_download part1 (world0 ∅ ∅) (guest_req None) net0 true))
  = {[ js "10.0.0.1" := 1 ]}.
Proof. vm_compute. reflexivity. Qed.

(** ** getPaginationParams *)

(** Digit value of a code unit for parseInt: '0'-'9', 'a'-'z', 'A'-'Z'. *)
Definition digit_val (c : N) : option N :=
  if (48 <=? c)%N && (c <=? 57)%N then Some (c - 48)%N
  else if (97 <=? c)%N && (c <=? 122)%N then Some (c - 87)%N
  else if (65 <=? c)%N && (c <=? 90)%N then Some (c - 55)%N
  else None.

Definition is_digit_in (radix : N) (c : N) : bool :=
  match digit_val c with Some d => (d <? radix)%N | None => false end.

(** Value of the longest prefix of valid digits, accumulated from [acc]. *)
Fixpoint digits_acc (radix : N) (s : jstr) (acc : N) : N :=
  match s with
  | c :: t =>
      match digit_val c with
      | Some d => if (d <? radix)%N then digits_acc radix t (acc * radix + d)%N else acc
      | None => acc
      end
  | [] => acc
  end.

(** parseInt(string) with no radix argument (ECMA-262 §19.2.5): leading
    white space is skipped, one sign is read, a "0x"/"0X" prefix selects
    radix 16, and the longest prefix of digits is read; no digit gives NaN
    ([None]). [parse_int_value] is the mathematical value sign × mathInt,
    [js_parseInt] the Number returned for it. *)
Definition parse_sign (s1 : jstr) : Z * jstr :=
  match s1 with
  | 45%N :: t => ((-1)%Z, t)     (* '-' *)
  | 43%N :: t => (1%Z, t)        (* '+' *)
  | _ => (1%Z, s1)
  end.

Definition parse_radix (s2 : jstr) : N * jstr :=
  match s2 with
  | 48%N :: x :: t => if (x =? 120)%N || (x =? 88)%N then (16%N, t) else (10%N, s2)
  | _ => (10%N, s2)
  end.

Definition parse_digits (radix : N) (s3 : jstr) : option N :=
  match s3 with
  | c :: _ => if is_digit_in radix c then Some (digits_acc radix s3 0) else None
  | [] => None
  end.

Definition parse_int_value (s : jstr) : option Z :=
  let '(sign, s2) := parse_sign (drop_space s) in
  let '(radix, s3) := parse_radix s2 in
  option_map (fun n => (sign * Z.of_N n)%Z) (parse_digits radix s3).

(** JavaScript numbers as this code meets them: integer-valued doubles
    ([NFin]), the infinities ([NInf true] is -Infinity) and NaN. -0 is not
    told apart from +0: the code only tests these values for truthiness,
    takes Math.max(1, _) of them, multiplies and compares them, and -0
    behaves as +0 in each. *)
Inductive num := NFin (z : Z) | NInf (neg : bool) | NNaN.

(** Rounding of num / den (den > 0) to an integer, ties to even. *)
Definition round_half_even (num den : Z) : Z :=
  let q := (num / den)%Z in
  let r := (num mod den)%Z in
  if (den <? 2 * r)%Z || ((2 * r =? den)%Z && Z.odd q) then (q + 1)%Z else q.

(** The Number value for an integer z (binary64, round half to even):
    integers up to 2^53 in magnitude are doubles; beyond, the 53 leading
    bits are kept, and a value that rounds to 2^1024 overflows to an
    infinity. *)
Definition number_of_int (z : Z) : num :=
  if (Z.abs z <=? 2^53)%Z then NFin z
  else
    let e := (Z.log2 (Z.abs z) - 52)%Z in
    let v := (round_half_even (Z.abs z) (2^e) * 2^e)%Z in
    if (2^1024 <=? v)%Z then NInf (z <? 0)%Z else NFin (Z.sgn z * v).

(** Math.ceil(a / b) for integers a and b > 0: the quotient is rounded to
    a double (binary64, round half to even, subnormals included) and then
    rounded up. [E] is the binary exponent of |a| / b (2^E <= |a|/b <
    2^(E+1)); [e] is the weight of the last bit kept, at least 2^-1074. *)
Definition ceil_div_double (a b : Z) : num :=
  if (a =? 0)%Z then NFin 0 else
  let x := Z.abs a in
  let E := if (b <=? x)%Z then Z.log2 (x / b) else (- Z.log2_up ((b + x - 1) / x))%Z in
  let e := Z.max (E - 52) (-1074) in
  if (0 <=? e)%Z then
    let v := (round_half_even x (b * 2^e) * 2^e)%Z in
    if (2^1024 <=? v)%Z then NInf (a <? 0)%Z else NFin (Z.sgn a * v)
  else
    (* the rounded quotient is m * 2^e *)
    let m := round_half_even (x * 2^(-e)) b in
    NFin (if (0 <? a)%Z then (- ((- m) / 2^(-e)))%Z else (- (m / 2^(-e)))%Z).

(** [parseInt(s)]: NaN when no digit is read, else the Number for
    sign × mathInt. *)
Definition js_parseInt (s : jstr) : num :=
  match parse_int_value s with
  | Some z => number_of_int z
  | None => NNaN
  end.

(** [x || d]: NaN and 0 (also -0) are falsy. *)
Definition js_or (x d : num) : num :=
  match x with
  | NFin z => if (z =? 0)%Z then d else x
  | NNaN => d
  | NInf _ => x
  end.

(** [Math.max(1, x)] *)
Definition js_max1 (x : num) : num :=
  match x with
  | NFin z => NFin (Z.max 1 z)
  | NInf false => NInf false
  | NInf true => NFin 1
  | NNaN => NNaN
  end.

(** [x - y] *)
Definition js_sub (x y : num) : num :=
  match x, y with
  | NFin a, NFin b => number_of_int (a - b)
  | NInf s, NFin _ => NInf s
  | NFin _, NInf s => NInf (negb s)
  | NInf s, NInf t => if Bool.eqb s t then NNaN else NInf s
  | _, _ => NNaN
  end.

(** [x * y] *)
Definition js_mul (x y : num) : num :=
  match x, y with
  | NFin a, NFin b => number_of_int (a * b)
  | NFin a, NInf s | NInf s, NFin a =>
      if (a =? 0)%Z then NNaN else NInf (xorb s (a <? 0)%Z)
  | NInf s, NInf t => NInf (xorb s t)
  | _, _ => NNaN
  end.

(** [Math.ceil(x / y)] *)
Definition js_ceil_div (x y : num) : num :=
  match x, y with
  | NFin a, NFin b =>
      if (0 <? b)%Z then ceil_div_double a b
      else if (b <? 0)%Z then ceil_div_double (- a) (- b)
      else if (a =? 0)%Z then NNaN else NInf (a <? 0)%Z
  | NFin _, NInf _ => NFin 0
  | NInf s, NFin b => NInf (xorb s (b <? 0)%Z)
  | _, _ => NNaN
  end.

(** [x < y] and [x <= y]: false whenever NaN is involved. *)
Definition num_lt (x y : num) : bool :=
  match x, y with
  | NFin a, NFin b => (a <? b)%Z
  | NFin _, NInf n => negb n
  | NInf true, NFin _ => true
  | NInf true, NInf false => true
  | _, _ => false
  end.

Definition num_le (x y : num) : bool :=
  match x, y with
  | NFin a, NFin b => (a <=? b)%Z
  | NFin _, NInf n => negb n
  | NInf true, NFin _ => true
  | NInf true, NInf _ => true
  | NInf false, NInf false => true
  | _, _ => false
  end.

(** [req.query.page] / [req.query.limit] as parseInt sees them:
    String(value), an absent parameter being "undefined". *)
Definition query_arg (q : option jstr) : jstr := default (js "undefined") q.

Record Pagination := mkPagination { pg_page : num; pg_limit : num; pg_skip : num }.

(** [getPaginationParams(req, defaultLimit)] *)
Definition getPaginationParams (qpage qlimit : option jstr) (defaultLimit : num) : Pagination :=
  let page := js_max1 (js_or (js_parseInt (query_arg qpage)) (NFin 1)) in
  let limit := js_max1 (js_or (js_parseInt (query_arg qlimit)) defaultLimit) in
  let skip := js_mul (js_sub page (NFin 1)) limit in
  mkPagination page limit skip.

(** [Math.ceil(total / limit)] for the document count [total]. *)
Definition totalPages (total : Z) (limit : num) : num := js_ceil_div (NFin total) limit.

(** Decimal rendering of a list of digit values (each below 10). *)
Definition render_digits (ds : list N) : jstr := map (fun d => (d + 48)%N) ds.

Definition digits_value (ds : list N) : N := fold_left (fun acc d => (acc * 10 + d)%N) ds 0%N.

(** ** attachChapterCounts *)

Definition count_in (id : jstr) (cs : list Chapter) : nat :=
  length (List.filter (fun c => jstr_eqb (manga_id c) id) cs).

(** [Chapter.aggregate([{ $match: { manga_id: { $in: mangaIds } } },
    { $group: { _id: "$manga_id", count: { $sum: 1 } } }])]: one group per
    distinct [manga_id] of the matched chapters. The order of the groups is
    left to the database; the order taken here is that of the first chapter
    of each group. *)
Definition aggregate_counts (mangaIds : list jstr) (cs : list Chapter) : list (jstr * nat) :=
  let matched := List.filter (fun c => bool_decide (manga_id c ∈ mangaIds)) cs in
  map (fun k => (k, count_in k matched)) (remove_dups (map manga_id matched)).

(** [counts.forEach(c => { countMap[c._id.toString()] = c.count; })] *)
Definition build_countMap (counts : list (jstr * nat)) : gmap jstr nat :=
  fold_left (fun m c => <[fst c := snd c]> m) counts ∅.

(** [{ ...m, chapter_count }] *)
Record MangaCount := mkMangaCount { mc_manga : Manga; chapter_count : nat }.

(** [attachChapterCounts(mangas)]: [None] is the rejected promise (the
    aggregate throws when the database is unavailable). [countMap[id] || 0]
    is [default 0]: a stored count is never 0 and 0 || 0 is 0 anyway. *)
Definition attachChapterCounts (w : World) (ms : list Manga) : option (list MangaCount) :=
  match ms with
  | [] => Some []
  | _ =>
      if db_up w then
        let mangaIds := map m_id ms in
        let countMap := build_countMap (aggregate_counts mangaIds (chapters w)) in
        Some (map (fun m => mkMangaCount m (default 0 (countMap !! m_id m))) ms)
      else None
  end.

(** ** The global auth middleware (server part 000) *)

(** What [admin.auth().verifyIdToken] returns for a valid token. *)
Record Claims := mkClaims { uid : jstr; c_email : jstr }.

(** [s.startsWith(pre)] *)
Fixpoint starts_with (pre s : jstr) : bool :=
  match pre, s with
  | [], _ => true
  | p :: pre', c :: s' => (p =? c)%N && starts_with pre' s'
  | _ :: _, [] => false
  end.

(** [s.split(sep)] for a non-empty separator; the fuel is the length of
    [s], each step consumes at least one code unit. *)
Fixpoint split_fuel (fuel : nat) (sep s : jstr) : list jstr :=
  match fuel with
  | O => [s]
  | S n =>
      match s with
      | [] => [[]]
      | c :: t =>
          if starts_with sep s then [] :: split_fuel n sep (drop (length sep) s)
          else match split_fuel n sep t with
               | h :: rest => (c :: h) :: rest
               | [] => [[c]]
               end
      end
  end.

Definition js_split (sep s : jstr) : list jstr := split_fuel (length s) sep s.

Definition bearer : jstr := js "Bearer ".

(** [authHeader.split('Bearer ')[1]]; [None] is [undefined]. *)
Definition bearer_token (h : jstr) : option jstr :=
  match js_split bearer h with
  | _ :: t :: _ => Some t
  | _ => None
  end.

(** [User.findOne({ googleId })]: the accounts are searched in the store's
    order; [gids] holds the [googleId] field of each account. *)
Definition find_by_googleId (w : World) (gids : gmap jstr jstr) (g : jstr) : option jstr :=
  fst <$> List.find (fun p => bool_decide (gids !! p.1 = Some g)) (map_to_list (users w)).

(** The middleware: it returns the accounts, their [googleId]s and
    [req.user] (the account id). [verify] is [verifyIdToken] ([None]: it
    throws, also for an [undefined] token); [new_id] is the [_id] that
    [User.create] assigns. Any throw lands in the catch, which leaves
    [req.user] null. *)
Definition auth_middleware (verify : jstr -> option Claims) (w : World)
  (gids : gmap jstr jstr) (new_id : jstr) (authHeader : option jstr)
  : World * gmap jstr jstr * option jstr :=
  match authHeader with
  | Some h =>
      if starts_with bearer h then
        match bearer_token h ≫= verify with
        | Some decoded =>
            if db_up w then
              match find_by_googleId w gids (uid decoded) with
              | Some id => (w, gids, Some id)
              | None =>
                  (with_users (<[new_id := mkUser false 0 (c_email decoded)]> (users w)) w,
                   <[new_id := uid decoded]> gids, Some new_id)
              end
            else (w, gids, None)
        | None => (w, gids, None)
        end
      else (w, gids, None)
  | None => (w, gids, None)
  end.

(** A token verifier that accepts one token. *)
Definition verify0 (t : jstr) : option Claims :=
  if jstr_eqb t (js "tok-1") then Some (mkClaims (js "g-1") (js "a@example.com")) else None.

Example parseInt_ex1 : js_parseInt (js "  -42px") = NFin (-42).
Proof. reflexivity. Qed.
Example parseInt_ex2 : js_parseInt (js "0x1A") = NFin 26.
Proof. reflexivity. Qed.
Example parseInt_ex3 : js_parseInt (js "undefined") = NNaN.
Proof. reflexivity. Qed.
Example parseInt_ex4 : js_parseInt (js "9007199254740993") = NFin 9007199254740992.
Proof. vm_compute. reflexivity. Qed.
Example parseInt_ex5 : js_parseInt (js "9007199254740995") = NFin 9007199254740996.
Proof. vm_compute. reflexivity. Qed.
Example pagination_ex : getPaginationParams (Some (js "3")) (Some (js "-5")) (NFin 24)
  = mkPagination (NFin 3) (NFin 1) (NFin 2).
Proof. reflexivity. Qed.
(** A limit of 400 nines parses to Infinity, and skip = 0 * Infinity is NaN. *)
Example pagination_infinite_limit :
  getPaginationParams None (Some (js "9999999999999999999999999999999999999999999999999999999999999999999999999999999999999999999999999999999999999999999999999999999999999999999999999999999999999999999999999999999999999999999999999999999999999999999999999999999999999999999999999999999999999999999999999999999999999999999999999999999999999999999999999999999999999999999999999999999999999999999999999999999999999999999999999999999999999999")) (NFin 24)
  = mkPagination (NFin 1) (NInf false) NNaN.
Proof. vm_compute. reflexivity. Qed.
Example totalPages_ex : totalPages 50 (NFin 24) = NFin 3.
Proof. vm_compute. reflexivity. Qed.
Example bearer_ex1 : bearer_token (js "Bearer abc") = Some (js "abc").
Proof. reflexivity. Qed.
Example bearer_ex2 : bearer_token (js "Bearer aBearer b") = Some (js "a").
Proof. reflexivity. Qed.
Example split_ex : js_split (js ",") (js "a,,b,") = [js "a"; []; js "b"; []].
Proof. reflexivity. Qed.

(** * Properties *)

(** Event filters used to read a response. *)
Definition pages_of (evs : list Event) : list (nat * nat) :=
  flat_map (fun e => match e with Page wd ht => [(wd, ht)] | _ => [] end) evs.

Definition fetches_of (evs : list Event) : list jstr :=
  flat_map (fun e => match e with Fetch u => [u] | _ => [] end) evs.



Definition transcoded (net : jstr -> Outcome) (u : jstr) : bool :=
  match net u with Transcoded _ _ => true | _ => false end.

Definition page_size (net : jstr -> Outcome) (u : jstr) : nat * nat :=
  match net u with Transcoded wd ht => (wd, ht) | _ => (0, 0) end.

Ltac destr_check :=
  unfold checkDownloadLimit;
  repeat match goal with
  | |- context [match r_user ?r with _ => _ end] => destruct (r_user r) eqn:?
  | |- context [negb (db_up ?w)] => destruct (db_up w) eqn:?
  | |- context [match users ?w !! ?i with _ => _ end] => destruct (users w !! i) eqn:?
  | |- context [if isPremium ?u then _ else _] => destruct (isPremium u) eqn:?
  | |- context [if Nat.leb ?n ?m then _ else _] => destruct (Nat.leb n m) eqn:?
  end.

(** The middleware never changes the request's inputs, only its locals. *)
Lemma check_inputs (v : Variant) (w : World) (r : Req) :
  r_slug (snd (checkDownloadLimit v w r)) = r_slug r /\
  r_chapterSlug (snd (checkDownloadLimit v w r)) = r_chapterSlug r /\
  r_user (snd (checkDownloadLimit v w r)) = r_user r /\
  r_xff (snd (checkDownloadLimit v w r)) = r_xff r /\
  r_remote (snd (checkDownloadLimit v w r)) = r_remote r.
Proof. destr_check; simpl; auto. Qed.

(** ** C1 *)

(** C1: for an authenticated request whose account lookup answers, the
    classifier answers 404 when no account record exists, admits a premium
    account (request locals untouched: premium bucket) whatever its
    [downloadCount], answers 403 to a non-premium account with
    [downloadCount >= 50], and otherwise admits it with [req.userDoc] set to
    the account record (registered bucket). *)
Theorem checkDownloadLimit_authenticated (v : Variant) (w : World) (r : Req) (id : jstr)
  (Hauth : r_user r = Some id) (Hdb : db_up w = true) :
  (users w !! id = None ->
     checkDownloadLimit v w r = (Respond 404 (error_body (js "User not found")), r)) /\
  (forall u, users w !! id = Some u -> isPremium u = true ->
     checkDownloadLimit v w r = (Next, r)) /\
  (forall u, users w !! id = Some u -> isPremium u = false -> 50 <= downloadCount u ->
     checkDownloadLimit v w r = (Respond 403 (error_body (user_limit_msg v)), r)) /\
  (forall u, users w !! id = Some u -> isPremium u = false -> downloadCount u < 50 ->
     checkDownloadLimit v w r = (Next, set_userDoc (id, u) r)).
Proof.
  unfold checkDownloadLimit; rewrite Hauth, Hdb; cbn [negb].
  split; [intros ->; reflexivity|].
  split; [intros u -> ->; reflexivity|].
  split; intros u -> ->; unfold USER_LIMIT; intros Hc.
  - apply Nat.leb_le in Hc; rewrite Hc; reflexivity.
  - apply Nat.leb_gt in Hc; rewrite Hc; reflexivity.
Qed.

Definition premium_user : User := mkUser true 500 (js "p@example.com").

Lemma checkDownloadLimit_authenticated_witness :
  r_user (user_req (js "p1")) = Some (js "p1") /\
  db_up (world0 ∅ {[ js "p1" := premium_user ]}) = true /\
  checkDownloadLimit api_first (world0 ∅ {[ js "p1" := premium_user ]}) (user_req (js "p1"))
    = (Next, user_req (js "p1")).
Proof.
  split; [reflexivity|]. split; [reflexivity|].
  apply (proj1 (proj2 (checkDownloadLimit_authenticated api_first
           (world0 ∅ {[ js "p1" := premium_user ]}) (user_req (js "p1")) (js "p1")
           eq_refl eq_refl)) premium_user).
  - apply lookup_singleton_eq.
  - reflexivity.
Defined.

(** ** C2 *)

Definition xff_leading_comma : jstr := js ",203.0.113.5".

(** C2 (failing input): in the second copy of api.js and in part_001 a guest
    whose forwarded-address header starts with a comma is classified under
    the empty key [""]; the finish listener tests [req.isGuest && req.clientIp],
    the empty string is falsy, and no guest increment happens. Twenty
    finished downloads later the cache is still empty and the guest is still
    admitted. The first copy of api.js counts the same download. *)
Theorem guest_commit_skipped_for_empty_key :
  download_listeners part1 (world0 ∅ ∅) (guest_req (Some xff_leading_comma)) net0 <> [] /\
  clientIp (snd (checkDownloadLimit part1 (world0 ∅ ∅) (guest_req (Some xff_leading_comma))))
    = Some [] /\
  guestCache (fst (serve_download part1 (world0 ∅ ∅) (guest_req (Some xff_leading_comma)) net0 true))
    = ∅ /\
  guestCache (fst (serve_download api_second (world0 ∅ ∅) (guest_req (Some xff_leading_comma)) net0 true))
    = ∅ /\
  guestCache (run part1 (world0 ∅ ∅)
                (repeat (CallDownload (guest_req (Some xff_leading_comma)) net0 true) 20)) = ∅ /\
  fst (checkDownloadLimit part1
         (run part1 (world0 ∅ ∅)
            (repeat (CallDownload (guest_req (Some xff_leading_comma)) net0 true) 20))
         (guest_req (Some xff_leading_comma))) = Next /\
  guestCache (fst (serve_download api_first (world0 ∅ ∅) (guest_req (Some xff_leading_comma)) net0 true))
    = {[ xff_leading_comma := 1 ]}.
Proof.
  split; [vm_compute; discriminate|].
  repeat split; vm_compute; reflexivity.
Qed.

(** ** C3 *)

Definition xff_two_hops : jstr := js "203.0.113.5, 70.41.3.18".

(** C3 (failing input): the first copy of api.js uses the forwarded-address
    header as it is, so ["203.0.113.5, 70.41.3.18"] is its own key: with
    the counter of ["203.0.113.5"] at 10 that copy still admits the guest
    and records the whole header as [clientIp], while the two other copies
    key the guest as ["203.0.113.5"] and answer 403. *)
Theorem guest_key_not_normalized_in_first_copy :
  checkDownloadLimit api_first (world0 {[ js "203.0.113.5" := 10 ]} ∅) (guest_req (Some xff_two_hops))
    = (Next, set_guest xff_two_hops (guest_req (Some xff_two_hops))) /\
  checkDownloadLimit api_second (world0 {[ js "203.0.113.5" := 10 ]} ∅) (guest_req (Some xff_two_hops))
    = (Respond 403 (error_body (guest_limit_msg api_second)), guest_req (Some xff_two_hops)) /\
  checkDownloadLimit part1 (world0 {[ js "203.0.113.5" := 10 ]} ∅) (guest_req (Some xff_two_hops))
    = (Respond 403 (error_body (guest_limit_msg part1)), guest_req (Some xff_two_hops)).
Proof. repeat split; vm_compute; reflexivity. Qed.

(** ** C4 *)

(** C4 (failing input): a guest download streamed to its end. The finish
    listener of both copies of api.js never touches the manga's download
    statistic; part_001's listener adds 1 to it. *)
Theorem download_statistic_only_in_part1 :
  mangas (fst (serve_download api_first (world0 ∅ ∅) (guest_req None) net0 true)) = [manga0] /\
  mangas (fst (serve_download api_second (world0 ∅ ∅) (guest_req None) net0 true)) = [manga0] /\
  mangas (fst (serve_download part1 (world0 ∅ ∅) (guest_req None) net0 true))
    = [mkManga (js "m1") (js "one-piece") (js "One Piece!") 8].
Proof. repeat split; vm_compute; reflexivity. Qed.

(** ** The PDF branch of the download route *)

Lemma fetches_of_app (l1 l2 : list Event) :
  fetches_of (l1 ++ l2) = fetches_of l1 ++ fetches_of l2.
Proof. unfold fetches_of; apply flat_map_app. Qed.

Lemma pages_of_app (l1 l2 : list Event) :
  pages_of (l1 ++ l2) = pages_of l1 ++ pages_of l2.
Proof. unfold pages_of; apply flat_map_app. Qed.

Lemma image_loop_fetches (net : jstr -> Outcome) (urls : list jstr) :
  fetches_of (image_loop net urls) = urls.
Proof.
  induction urls as [|u us IH]; [reflexivity|].
  cbn [image_loop]. unfold fetches_of in *. cbn [flat_map].
  rewrite flat_map_app, IH. destruct (net u); reflexivity.
Qed.

Lemma image_loop_pages (net : jstr -> Outcome) (urls : list jstr) :
  pages_of (image_loop net urls) = map (page_size net) (List.filter (transcoded net) urls).
Proof.
  induction urls as [|u us IH]; [reflexivity|].
  cbn [image_loop List.filter]. unfold pages_of in *. cbn [flat_map].
  rewrite flat_map_app, IH. unfold transcoded, page_size.
  destruct (net u) eqn:E; simpl; rewrite ?E; reflexivity.
Qed.

Lemma filter_split_length {A} (p : A -> bool) (l : list A) :
  length (List.filter p l) + length (List.filter (fun x => negb (p x)) l) = length l.
Proof.
  induction l as [|x l IH]; [reflexivity|]. simpl.
  destruct (p x); simpl; lia.
Qed.

Lemma check_next_inputs (v : Variant) (w : World) (r r1 : Req) :
  checkDownloadLimit v w r = (Next, r1) ->
  r_slug r1 = r_slug r /\ r_chapterSlug r1 = r_chapterSlug r.
Proof.
  intros H. pose proof (check_inputs v w r) as (H1 & H2 & _).
  rewrite H in H1, H2. auto.
Qed.

(** The fixed parts of the Content-Disposition value and the cleaned title
    are accepted by [res.setHeader]: only the chapter index can be refused. *)
Lemma content_disposition_ok (m : Manga) (c : Chapter) :
  header_value_ok (content_disposition m c) = header_value_ok (chapter_index c).
Proof.
  unfold header_value_ok, content_disposition.
  rewrite !forallb_app.
  assert (Ht : forallb header_char_ok (clean_title (title m)) = true).
  { unfold clean_title. apply forallb_forall. intros x Hx.
    apply in_map_iff in Hx as (ch & <- & _).
    unfold is_alnum, header_char_ok.
    destruct (48 <=? ch)%N eqn:H1, (ch <=? 57)%N eqn:H2, (65 <=? ch)%N eqn:H3,
             (ch <=? 90)%N eqn:H4, (97 <=? ch)%N eqn:H5, (ch <=? 122)%N eqn:H6;
      cbn [andb orb];
      repeat match goal with
             | H : (_ <=? _)%N = true |- _ => apply N.leb_le in H
             | H : (_ <=? _)%N = false |- _ => apply N.leb_gt in H
             end;
      try reflexivity;
      repeat match goal with
             | |- context [(?a <=? ?b)%N] => replace (a <=? b)%N with true by (symmetry; apply N.leb_le; lia)
             end; rewrite ?orb_true_r; reflexivity. }
  rewrite Ht. cbn. destruct (forallb header_char_ok (chapter_index c)); reflexivity.
Qed.

(** An admitted request whose manga and chapter are found with a non-empty
    image list: with a chapter index that [res.setHeader] accepts, it gets
    the two PDF headers, one fetch per image, a page for each transcoded
    image, and doc.end(), and one finish listener is registered; otherwise
    it gets Content-Type and the 500 text, and no listener. *)
Lemma serve_pdf_branch (v : Variant) (w : World) (r : Req) (net : jstr -> Outcome)
  (m : Manga) (c : Chapter) (imgs : list jstr)
  (Hadm : fst (checkDownloadLimit v w r) = Next) (Hdb : db_up w = true)
  (Hm : find_manga (r_slug r) (mangas w) = Some m)
  (Hc : find_chapter (m_id m) (r_chapterSlug r) (chapters w) = Some c)
  (Himg : images c = Some imgs) (Hne : imgs <> []) :
  exists r1, checkDownloadLimit v w r = (Next, r1) /\
  download_handler w r1 net =
    if header_value_ok (chapter_index c) then
      ([SetHeader (js "Content-Type") (js "application/pdf");
        SetHeader (js "Content-Disposition") (content_disposition m c)]
       ++ image_loop net imgs ++ [DocEnd],
       [mkListener r1 (m_id m)])
    else
      ([SetHeader (js "Content-Type") (js "application/pdf");
        SendText 500 (js "Error generating PDF")], []).
Proof.
  destruct (checkDownloadLimit v w r) as [d r1] eqn:Hck; simpl in Hadm; subst d.
  exists r1; split; [reflexivity|].
  destruct (check_next_inputs v w r r1 Hck) as [Hs Hcs].
  unfold download_handler. rewrite Hdb, Hs, Hm, Hcs, Hc, Himg. cbn [negb].
  rewrite <- (content_disposition_ok m c).
  destruct imgs as [|i is]; [congruence|reflexivity].
Qed.

(** ** C5 *)

(** C5: when an admitted download reaches the image loop with N image URLs
    (the chapter index being accepted as a header value), every URL is
    fetched (a failure does not stop the loop), and the pages of the
    document are exactly the sizes of the images that were fetched and
    transcoded, in the order of their URLs: N minus the failures, no page
    for a failed image. With a chapter index that [res.setHeader] refuses,
    no document is assembled at all: nothing is fetched, no page is written
    and doc.end() is not reached. *)
Theorem pages_are_surviving_images (v : Variant) (w : World) (r : Req)
  (net : jstr -> Outcome) (fin : bool) (m : Manga) (c : Chapter) (imgs : list jstr)
  (Hadm : fst (checkDownloadLimit v w r) = Next) (Hdb : db_up w = true)
  (Hm : find_manga (r_slug r) (mangas w) = Some m)
  (Hc : find_chapter (m_id m) (r_chapterSlug r) (chapters w) = Some c)
  (Himg : images c = Some imgs) (Hne : imgs <> []) :
  (header_value_ok (chapter_index c) = true ->
   fetches_of (snd (serve_download v w r net fin)) = imgs /\
   pages_of (snd (serve_download v w r net fin))
     = map (page_size net) (List.filter (transcoded net) imgs) /\
   length (pages_of (snd (serve_download v w r net fin)))
     = length imgs - length (List.filter (fun u => negb (transcoded net u)) imgs)) /\
  (header_value_ok (chapter_index c) = false ->
   fetches_of (snd (serve_download v w r net fin)) = [] /\
   pages_of (snd (serve_download v w r net fin)) = [] /\
   ~ In DocEnd (snd (serve_download v w r net fin))).
Proof.
  destruct (serve_pdf_branch v w r net m c imgs Hadm Hdb Hm Hc Himg Hne) as (r1 & Hck & Hh).
  unfold serve_download. rewrite Hck, Hh.
  destruct (header_value_ok (chapter_index c)).
  - split; [intros _|intros H; discriminate H].
    cbn beta iota zeta. cbn [snd].
    rewrite fetches_of_app, pages_of_app, fetches_of_app, pages_of_app,
            image_loop_fetches, image_loop_pages.
    cbn. rewrite app_nil_r, app_nil_r.
    split; [reflexivity|]. split; [reflexivity|].
    rewrite length_map. pose proof (filter_split_length (transcoded net) imgs). lia.
  - split; [intros H; discriminate H|intros _].
    cbn beta iota zeta. cbn [snd].
    split; [reflexivity|]. split; [reflexivity|].
    intros [H|[H|[]]]; discriminate H.
Qed.

Lemma pages_are_surviving_images_witness :
  fetches_of (snd (serve_download part1 (world0 ∅ ∅) (guest_req None) net0 true))
    = [js "u1"; js "u2"; js "u3"] /\
  pages_of (snd (serve_download part1 (world0 ∅ ∅) (guest_req None) net0 true))
    = map (page_size net0) (List.filter (transcoded net0) [js "u1"; js "u2"; js "u3"]) /\
  length (pages_of (snd (serve_download part1 (world0 ∅ ∅) (guest_req None) net0 true)))
    = 3 - length (List.filter (fun u => negb (transcoded net0 u)) [js "u1"; js "u2"; js "u3"]).
Proof.
  refine (proj1 (pages_are_surviving_images part1 (world0 ∅ ∅) (guest_req None) net0 true
           manga0 chapter0 [js "u1"; js "u2"; js "u3"] _ _ _ _ _ _) _);
    try discriminate; vm_compute; reflexivity.
Defined.

(** ** C6 *)




(** ** C7 *)






(** ** C8 *)

(** C8: classification reads the world and writes only request locals;
    running it again on the request it produced gives the same decision and
    the same request. Up to the response's 'finish' nothing in the world
    changes, and a request the classifier answered leaves it unchanged. *)
Theorem classification_idempotent (v : Variant) (w : World) (r : Req) :
  checkDownloadLimit v w (snd (checkDownloadLimit v w r)) = checkDownloadLimit v w r /\
  (forall net, fst (serve_download v w r net false) = w) /\
  (forall net fin code body, fst (checkDownloadLimit v w r) = Respond code body ->
     fst (serve_download v w r net fin) = w).
Proof.
  split; [|split].
  - unfold checkDownloadLimit at 2 3.
    destruct (r_user r) as [id|] eqn:Hu.
    + destruct (db_up w) eqn:Hdb; cbn [negb]; [|cbn [snd]; unfold checkDownloadLimit; rewrite Hu, Hdb; reflexivity].
      destruct (users w !! id) as [u|] eqn:Hl;
        [|cbn [snd]; unfold checkDownloadLimit; rewrite Hu, Hdb, Hl; reflexivity].
      destruct (isPremium u) eqn:Hp;
        [cbn [snd]; unfold checkDownloadLimit; rewrite Hu, Hdb, Hl, Hp; reflexivity|].
      destruct (USER_LIMIT <=? downloadCount u) eqn:Hc; cbn [snd]; unfold checkDownloadLimit;
        cbn [r_user set_userDoc]; rewrite ?Hu, Hdb, Hl, Hp, Hc; reflexivity.
    + cbn zeta. destruct (LIMIT_GUEST_IP <=? _) eqn:Hc; cbn [snd].
      * unfold checkDownloadLimit. rewrite Hu. cbn zeta. rewrite Hc. reflexivity.
      * unfold checkDownloadLimit. cbn [r_user set_guest]. rewrite Hu. cbn zeta.
        change (raw_ip (set_guest (guest_key v (raw_ip r)) r)) with (raw_ip r).
        rewrite Hc. reflexivity.
  - intros net. unfold serve_download.
    destruct (checkDownloadLimit v w r) as [[code body|] r1]; [reflexivity|].
    destruct (download_handler w r1 net); reflexivity.
  - intros net fin code body H. unfold serve_download.
    destruct (checkDownloadLimit v w r) as [[c b|] r1]; [reflexivity|discriminate].
Qed.

Lemma classification_idempotent_witness :
  fst (serve_download part1 (world0 {[ js "10.0.0.1" := 10 ]} ∅) (guest_req None) net0 true)
    = world0 {[ js "10.0.0.1" := 10 ]} ∅.
Proof.
  apply (proj2 (proj2 (classification_idempotent part1 (world0 {[ js "10.0.0.1" := 10 ]} ∅)
                         (guest_req None))) net0 true 403 (error_body (guest_limit_msg part1))).
  vm_compute. reflexivity.
Defined.

(** ** C9 *)

Lemma image_loop_docend_free (net : jstr -> Outcome) (urls : list jstr) :
  ~ In DocEnd (image_loop net urls).
Proof.
  induction urls as [|u us IH]; [simpl; tauto|].
  cbn [image_loop]. intros [H|H]; [discriminate|].
  apply in_app_or in H as [H|H]; [|contradiction].
  destruct (net u); simpl in H; try contradiction.
  destruct H as [H|H]; [inversion H|exact H].
Qed.

Lemma no_pages_all_failed (net : jstr -> Outcome) (urls : list jstr) :
  pages_of (image_loop net urls) = [] ->
  forallb (fun u => negb (transcoded net u)) urls = true.
Proof.
  rewrite image_loop_pages. induction urls as [|u us IH]; [reflexivity|].
  cbn [List.filter forallb]. intros H.
  destruct (transcoded net u); [discriminate H|]. cbn [negb andb]. auto.
Qed.

(** C9: for an admitted request whose manga is found, a missing chapter, a
    chapter without an image list or with an empty one gets exactly the 404
    JSON body ["Images not found"] (no header, fetch or page before it) and
    registers no finish listener. Hence a response that reaches doc.end()
    without any page comes from a found chapter with a non-empty image list
    all of whose images failed. *)
Theorem images_not_found_guard (v : Variant) (w : World) (r : Req)
  (net : jstr -> Outcome) (fin : bool) (m : Manga)
  (Hadm : fst (checkDownloadLimit v w r) = Next) (Hdb : db_up w = true)
  (Hm : find_manga (r_slug r) (mangas w) = Some m) :
  (match find_chapter (m_id m) (r_chapterSlug r) (chapters w) with
   | None => True
   | Some c => images c = None \/ images c = Some []
   end ->
   snd (serve_download v w r net fin) = [SendJson 404 (error_body (js "Images not found"))] /\
   download_listeners v w r net = []) /\
  (In DocEnd (snd (serve_download v w r net fin)) ->
   pages_of (snd (serve_download v w r net fin)) = [] ->
   exists c imgs, find_chapter (m_id m) (r_chapterSlug r) (chapters w) = Some c /\
     images c = Some imgs /\ imgs <> [] /\
     forallb (fun u => negb (transcoded net u)) imgs = true).
Proof.
  destruct (checkDownloadLimit v w r) as [d r1] eqn:Hck; simpl in Hadm; subst d.
  destruct (check_next_inputs v w r r1 Hck) as [Hs Hcs].
  unfold serve_download, download_listeners. rewrite Hck.
  unfold download_handler. rewrite Hdb, Hs, Hcs, Hm. cbn [negb].
  destruct (find_chapter (m_id m) (r_chapterSlug r) (chapters w)) as [c|] eqn:Hc.
  - destruct (images c) as [[|i is]|] eqn:Hi.
    + split; [intros _; split; reflexivity|].
      intros [H|[]]; discriminate.
    + split; [intros [H|H]; discriminate|].
      destruct (header_value_ok (content_disposition m c));
        [|cbn beta iota zeta; cbn [snd]; intros [H|[H|[]]]; discriminate H].
      cbn beta iota zeta. cbn [snd]. intros _ Hp.
      exists c, (i :: is). split; [reflexivity|]. split; [exact Hi|].
      split; [discriminate|].
      rewrite !pages_of_app in Hp. apply app_eq_nil in Hp as [_ Hp].
      apply app_eq_nil in Hp as [Hp _]. apply no_pages_all_failed; exact Hp.
    + split; [intros _; split; reflexivity|].
      intros [H|[]]; discriminate.
  - split; [intros _; split; reflexivity|].
    intros [H|[]]; discriminate.
Qed.

Definition chapter_empty : Chapter :=
  mkChapter (js "m1") (js "chapter-1") (js "1") (Some []).

Definition world_empty_chapter : World :=
  mkWorld true ∅ ∅ [manga0] [chapter_empty].

Lemma images_not_found_guard_witness :
  snd (serve_download api_first world_empty_chapter (guest_req None) net0 true)
    = [SendJson 404 (error_body (js "Images not found"))] /\
  download_listeners api_first world_empty_chapter (guest_req None) net0 = [].
Proof.
  apply (proj1 (images_not_found_guard api_first world_empty_chapter (guest_req None) net0 true
                  manga0 eq_refl eq_refl eq_refl)).
  right. reflexivity.
Defined.

(** ** C10 *)

(** An admitted fresh request that leaves the middleware as a guest carries
    the guest key and was admitted with that key's counter below 10. *)
Lemma check_fresh_guest (v : Variant) (w : World) (r r1 : Req) :
  checkDownloadLimit v w (fresh r) = (Next, r1) -> isGuest r1 = true ->
  r1 = set_guest (guest_key v (raw_ip r)) (fresh r) /\
  default 0 (guestCache w !! guest_key v (raw_ip r)) < 10.
Proof.
  intros H Hg. unfold checkDownloadLimit in H.
  change (r_user (fresh r)) with (r_user r) in H.
  change (raw_ip (fresh r)) with (raw_ip r) in H.
  destruct (r_user r) as [id|].
  - destruct (db_up w); cbn [negb] in H; [|discriminate H].
    destruct (users w !! id) as [u|]; [|discriminate H].
    destruct (isPremium u); [injection H as <-; discriminate Hg|].
    destruct (USER_LIMIT <=? downloadCount u); [discriminate H|].
    injection H as <-. discriminate Hg.
  - cbn zeta in H. destruct (LIMIT_GUEST_IP <=? _) eqn:Hc; [discriminate H|].
    injection H as <-. split; [reflexivity|]. apply Nat.leb_gt in Hc. exact Hc.
Qed.

Lemma handler_listeners (w : World) (r1 : Req) (net : jstr -> Outcome) :
  snd (download_handler w r1 net) = [] \/
  exists mid, snd (download_handler w r1 net) = [mkListener r1 mid].
Proof.
  unfold download_handler.
  destruct (db_up w); [|left; reflexivity]. cbn [negb].
  destruct (find_manga _ _) as [m|]; [|left; reflexivity].
  destruct (find_chapter _ _ _) as [c|]; [|left; reflexivity].
  destruct (images c) as [[|i is]|]; [left; reflexivity| |left; reflexivity].
  destruct (header_value_ok _); [|left; reflexivity].
  right. exists (m_id m). reflexivity.
Qed.

(** The finish listener touches the guest cache only through the increment
    of its own request's [clientIp], and only for a guest request. *)
Lemma commit_guests (v : Variant) (w : World) (l : Listener) :
  guestCache (commit v w l) = guestCache w \/
  (isGuest (l_req l) = true /\
   exists k, clientIp (l_req l) = Some k /\
   guestCache (commit v w l) = <[k := default 0 (guestCache w !! k) + 1]> (guestCache w)).
Proof.
  unfold commit.
  destruct (userDoc (l_req l)) as [[id u]|].
  - left. destruct (db_up w); [|reflexivity].
    destruct (counts_downloads v); reflexivity.
  - destruct (isGuest (l_req l)) eqn:Hg;
      [|left; destruct (counts_downloads v); [destruct (db_up w)|]; reflexivity].
    destruct (clientIp (l_req l)) as [k|] eqn:Hk;
      [|left; destruct (counts_downloads v); [destruct (db_up w)|]; reflexivity].
    destruct (commit_needs_ip v && bool_decide (k = [])).
    + left. destruct (counts_downloads v); [destruct (db_up w)|]; reflexivity.
    + right. split; [reflexivity|]. exists k. split; [reflexivity|].
      destruct (counts_downloads v); [destruct (db_up _)|]; reflexivity.
Qed.

(** C10: with requests served one after another, each step leaves every
    guest counter as it was, or is a download that was admitted as a guest
    under that key with the counter below 10, finished, and raised that
    counter by exactly 1 (so no counter is ever lowered or removed).
    Starting from counters that are all at most 10 (the process starts
    with an empty Map), every stored counter stays at most 10. *)
Theorem guest_counters_bounded (v : Variant) :
  (forall (w : World) (c : Call) (k : jstr),
     guestCache (fst (step v w c)) !! k = guestCache w !! k \/
     exists r net, c = CallDownload r net true /\
       checkDownloadLimit v w (fresh r) = (Next, set_guest k (fresh r)) /\
       default 0 (guestCache w !! k) < 10 /\
       guestCache (fst (step v w c)) !! k = Some (default 0 (guestCache w !! k) + 1)) /\
  (forall (w : World) (cs : list Call),
     (forall k n, guestCache w !! k = Some n -> n <= 10) ->
     forall k n, guestCache (run v w cs) !! k = Some n -> n <= 10).
Proof.
  assert (Hstep : forall (w : World) (c : Call) (k : jstr),
     guestCache (fst (step v w c)) !! k = guestCache w !! k \/
     exists r net, c = CallDownload r net true /\
       checkDownloadLimit v w (fresh r) = (Next, set_guest k (fresh r)) /\
       default 0 (guestCache w !! k) < 10 /\
       guestCache (fst (step v w c)) !! k = Some (default 0 (guestCache w !! k) + 1)).
  { intros w c k. destruct c as [r net fin | r | em st | up].
    - unfold step, serve_download.
      destruct (checkDownloadLimit v w (fresh r)) as [[code body|] r1] eqn:Hck;
        [left; reflexivity|].
      pose proof (handler_listeners w r1 net) as Hl.
      destruct (download_handler w r1 net) as [evs ls]. cbn [snd] in Hl. cbn [fst].
      destruct fin; [|left; reflexivity].
      destruct Hl as [->|[mid ->]]; [left; reflexivity|].
      unfold fire_finish. cbn [fold_left].
      destruct (commit_guests v w (mkListener r1 mid)) as [E|(Hg & k' & Hk' & E)];
        [left; rewrite E; reflexivity|].
      cbn [l_req] in Hg, Hk'.
      destruct (check_fresh_guest v w r r1 Hck Hg) as [Hr1 Hlt]. subst r1.
      cbn [clientIp set_guest] in Hk'. injection Hk' as <-.
      rewrite E. destruct (decide (k = guest_key v (raw_ip r))) as [->|Hne].
      + right. exists r, net. split; [reflexivity|]. split; [exact Hck|].
        split; [exact Hlt|]. apply lookup_insert_eq.
      + left. apply lookup_insert_ne. congruence.
    - left. reflexivity.
    - left. unfold step, serve_webhook.
      destruct (jstr_eqb st (js "Success")); [destruct (db_up w)|]; [|reflexivity..].
      destruct (find_by_email (users w) em); reflexivity.
    - left. reflexivity. }
  split; [exact Hstep|].
  intros w cs. revert w. induction cs as [|c cs IH]; intros w Hw; [exact Hw|].
  cbn [run]. apply IH. intros k n Hn.
  destruct (Hstep w c k) as [E|(r & net & _ & _ & Hlt & E)]; rewrite E in Hn.
  - exact (Hw k n Hn).
  - injection Hn as <-. lia.
Qed.

Definition guest_calls (n : nat) : list Call :=
  repeat (CallDownload (guest_req (Some (js "198.51.100.7"))) net0 true) n.

Lemma guest_counters_bounded_witness :
  guestCache (run api_first (world0 ∅ ∅) (guest_calls 12)) = {[ js "198.51.100.7" := 10 ]} /\
  forall k n, guestCache (run api_first (world0 ∅ ∅) (guest_calls 12)) !! k = Some n -> n <= 10.
Proof.
  split; [vm_compute; reflexivity|].
  apply (proj2 (guest_counters_bounded api_first) (world0 ∅ ∅) (guest_calls 12)).
  intros k n H. unfold world0 in H. cbn [guestCache] in H.
  rewrite lookup_empty in H. discriminate H.
Defined.

(** ** Finish listeners of the download route *)

(** At most one finish listener is registered per request, none for a
    request the middleware answered; a request that reaches the handler
    with a premium account (no locals set) commits no usage. *)
Lemma download_listeners_shape (v : Variant) (w : World) (r : Req) (net : jstr -> Outcome) :
  length (download_listeners v w r net) <= 1 /\
  (forall code body, fst (checkDownloadLimit v w r) = Respond code body ->
     download_listeners v w r net = []).
Proof.
  unfold download_listeners.
  destruct (checkDownloadLimit v w r) as [[code body|] r1]; [split; [simpl; lia|reflexivity]|].
  split; [|intros ? ? H; discriminate H].
  destruct (handler_listeners w r1 net) as [->|[mid ->]]; simpl; lia.
Qed.

Lemma commit_premium_no_usage (v : Variant) (w : World) (l : Listener) :
  userDoc (l_req l) = None -> isGuest (l_req l) = false ->
  users (commit v w l) = users w /\ guestCache (commit v w l) = guestCache w.
Proof.
  intros Hu Hg. unfold commit. rewrite Hu, Hg.
  destruct (counts_downloads v); [destruct (db_up w)|]; split; reflexivity.
Qed.

(** ** Pagination *)

Lemma digit_char (d : N) : (d < 10)%N ->
  is_js_space (d + 48) = false /\ digit_val (d + 48) = Some d /\
  ((d + 48 =? 120)%N || (d + 48 =? 88)%N) = false /\ (d + 48 <> 45)%N /\ (d + 48 <> 43)%N.
Proof.
  intros H.
  assert (d = 0 \/ d = 1 \/ d = 2 \/ d = 3 \/ d = 4 \/ d = 5 \/ d = 6 \/ d = 7
          \/ d = 8 \/ d = 9)%N as Hd by lia.
  repeat destruct Hd as [->|Hd]; subst; repeat split; try reflexivity; lia.
Qed.

Lemma digits_acc_render (ds : list N) (acc : N) :
  Forall (fun d => (d < 10)%N) ds ->
  digits_acc 10 (render_digits ds) acc = fold_left (fun a d => (a * 10 + d)%N) ds acc.
Proof.
  revert acc; induction ds as [|d ds IH]; intros acc Hf; [reflexivity|].
  inversion Hf as [|? ? Hd Hds]; subst.
  destruct (digit_char d Hd) as (_ & Hv & _).
  cbn [render_digits map digits_acc fold_left] in *.
  fold (render_digits ds). rewrite Hv.
  replace (d <? 10)%N with true by (symmetry; apply N.ltb_lt; lia).
  apply IH; assumption.
Qed.

(** Case analysis of a match on a numeral against a variable. *)
Ltac lit_cases :=
  repeat (try reflexivity;
          match goal with
          | |- context [match ?p with xI _ => _ | xO _ => _ | xH => _ end] => is_var p; destruct p
          end); try congruence.

Lemma parse_sign_digit (d : N) (t : jstr) :
  (d < 10)%N -> parse_sign ((d + 48)%N :: t) = (1%Z, (d + 48)%N :: t).
Proof.
  intros Hd. destruct (digit_char d Hd) as (_ & _ & _ & H45 & H43).
  unfold parse_sign. revert H45 H43. generalize (d + 48)%N as c; intros c H45 H43.
  destruct c as [|p]; [reflexivity|]. lit_cases.
Qed.

Lemma parse_radix_decimal (ds : list N) :
  Forall (fun d => (d < 10)%N) ds -> parse_radix (render_digits ds) = (10%N, render_digits ds).
Proof.
  intros Hf. destruct ds as [|d ds']; [reflexivity|].
  inversion Hf as [|? ? Hd Hds']; subst.
  cbn [render_digits map]. fold (render_digits ds').
  destruct (N.eq_dec d 0%N) as [->|E].
  - destruct ds' as [|e ds'']; [reflexivity|].
    inversion Hds' as [|? ? He _]; subst.
    destruct (digit_char e He) as (_ & _ & Hx & _).
    cbn [render_digits map]. fold (render_digits ds''). cbn [N.add].
    unfold parse_radix. rewrite Hx. reflexivity.
  - unfold parse_radix. generalize (render_digits ds'); intros t.
    assert (E' : (d + 48)%N <> 48%N) by lia. revert E'.
    generalize (d + 48)%N as c; intros c E'.
    destruct c as [|p]; [reflexivity|]. destruct t; lit_cases.
Qed.

Lemma parse_digits_decimal (ds : list N) :
  Forall (fun d => (d < 10)%N) ds -> ds <> [] ->
  parse_digits 10 (render_digits ds) = Some (digits_value ds).
Proof.
  intros Hf Hne. destruct ds as [|d ds']; [congruence|].
  inversion Hf as [|? ? Hd _]; subst.
  destruct (digit_char d Hd) as (_ & Hv & _).
  unfold parse_digits. rewrite (digits_acc_render (d :: ds') 0 Hf).
  cbn [render_digits map]. unfold is_digit_in. rewrite Hv.
  replace (d <? 10)%N with true by (symmetry; apply N.ltb_lt; lia).
  reflexivity.
Qed.

(** A decimal numeral, with or without a leading '-'. *)
Lemma parseInt_digits (ds : list N) :
  Forall (fun d => (d < 10)%N) ds -> ds <> [] ->
  parse_int_value (render_digits ds) = Some (Z.of_N (digits_value ds)) /\
  parse_int_value (45%N :: render_digits ds) = Some (- Z.of_N (digits_value ds))%Z.
Proof.
  intros Hf Hne. split.
  - destruct ds as [|d ds']; [congruence|].
    inversion Hf as [|? ? Hd _]; subst.
    destruct (digit_char d Hd) as (Hs & _).
    unfold parse_int_value. cbn [render_digits map drop_space]. rewrite Hs.
    rewrite (parse_sign_digit d _ Hd).
    fold (render_digits ds').
    change ((d + 48)%N :: render_digits ds') with (render_digits (d :: ds')).
    rewrite (parse_radix_decimal _ Hf), (parse_digits_decimal _ Hf Hne).
    cbn; f_equal; lia.
  - unfold parse_int_value. cbn [drop_space].
    replace (is_js_space 45) with false by reflexivity. cbn [parse_sign].
    rewrite (parse_radix_decimal _ Hf), (parse_digits_decimal _ Hf Hne).
    cbn; f_equal; lia.
Qed.

Lemma digits_value_nil : digits_value [] = 0%N.
Proof. reflexivity. Qed.

Section Pagination.
Local Open Scope Z_scope.

Lemma round_half_even_spec (n d : Z) : 0 < d ->
  2 * Z.abs (round_half_even n d * d - n) <= d /\
  n / d <= round_half_even n d <= n / d + 1.
Proof.
  intros Hd. unfold round_half_even.
  pose proof (Z.div_mod n d ltac:(lia)) as Hn. pose proof (Z.mod_pos_bound n d Hd) as Hr.
  set (q := n / d) in *. set (r := n mod d) in *. clearbody q r. subst n.
  destruct (Z.ltb_spec d (2 * r)); destruct (Z.eqb_spec (2 * r) d); destruct (Z.odd q);
    cbn [orb andb]; split; try lia;
    match goal with |- context [Z.abs ?x] =>
      first [replace x with (d - r) by ring | replace x with (- r) by ring] end; lia.
Qed.

Lemma number_of_int_small (z : Z) : Z.abs z <= 2^53 -> number_of_int z = NFin z.
Proof. intros H. unfold number_of_int. apply Z.leb_le in H. rewrite H. reflexivity. Qed.

Lemma number_of_int_large (z : Z) : 2^53 < z ->
  number_of_int z = NInf false \/ exists v, number_of_int z = NFin v /\ 2^53 <= v.
Proof.
  intros H. unfold number_of_int.
  rewrite Z.abs_eq by lia. replace (z <=? 2^53) with false by (symmetry; apply Z.leb_gt; lia).
  cbn zeta.
  pose proof (Z.log2_spec z ltac:(lia)) as [Hl _].
  assert (HL : 53 <= Z.log2 z) by (apply Z.log2_le_pow2; lia).
  set (e := Z.log2 z - 52).
  assert (He1 : 1 <= e) by (unfold e; lia).
  assert (He : 2^Z.log2 z = 2^52 * 2^e) by (rewrite <- Z.pow_add_r by lia; f_equal; unfold e; lia).
  assert (H2e : 2 <= 2^e) by (change 2 with (2^1); apply Z.pow_le_mono_r; lia).
  destruct (round_half_even_spec z (2^e) ltac:(lia)) as [_ [Hq _]].
  assert (Hd : 2^52 <= z / 2^e) by (apply Z.div_le_lower_bound; lia).
  destruct (Z.leb_spec (2^1024) (round_half_even z (2^e) * 2^e)).
  - left. f_equal. apply Z.ltb_ge. lia.
  - right. eexists; split; [reflexivity|].
    rewrite Z.sgn_pos by lia. rewrite Z.mul_1_l.
    assert (2^53 = 2^52 * 2) as -> by reflexivity.
    assert (2^52 * 2 <= 2^52 * 2^e) by nia. nia.
Qed.

Lemma number_of_int_nonneg (z : Z) : 0 <= z ->
  (z <= 2^53 /\ number_of_int z = NFin z) \/
  (2^53 < z /\ (number_of_int z = NInf false \/
                exists v, number_of_int z = NFin v /\ 2^53 <= v)).
Proof.
  intros H. destruct (Z.leb_spec z (2^53)).
  - left. split; [assumption|]. apply number_of_int_small. lia.
  - right. split; [assumption|]. apply number_of_int_large. assumption.
Qed.

Lemma number_of_int_range (z v : Z) : number_of_int z = NFin v -> Z.abs v < 2^1024.
Proof.
  unfold number_of_int. destruct (Z.leb_spec (Z.abs z) (2^53)) as [H|H].
  - intros E. injection E as <-.
    assert (2^53 < 2^1024) by (apply Z.pow_lt_mono_r; lia). lia.
  - cbn zeta. set (e := Z.log2 (Z.abs z) - 52).
    assert (He : 0 < 2^e) by (apply Z.pow_pos_nonneg; [lia|unfold e; pose proof (Z.log2_nonneg (Z.abs z)); assert (53 <= Z.log2 (Z.abs z)) by (apply Z.log2_le_pow2; lia); lia]).
    destruct (round_half_even_spec (Z.abs z) (2^e) He) as [_ [Hq _]].
    assert (0 <= Z.abs z / 2^e) by (apply Z.div_pos; lia).
    destruct (Z.leb_spec (2^1024) (round_half_even (Z.abs z) (2^e) * 2^e)); [discriminate|].
    intros E. injection E as <-.
    destruct (Z.sgn_spec z) as [[Hz ->]|[[Hz ->]|[Hz ->]]]; nia.
Qed.

Lemma skip_not_lt (z t : Z) : 2^53 <= z -> t < 2^53 -> num_lt (number_of_int z) (NFin t) = false.
Proof.
  intros Hz Ht. destruct (Z.eq_dec z (2^53)) as [->|Hne].
  - rewrite number_of_int_small by (rewrite Z.abs_eq; lia). cbn. apply Z.ltb_ge. lia.
  - destruct (number_of_int_large z ltac:(lia)) as [->|(v & -> & Hv)]; [reflexivity|].
    cbn. apply Z.ltb_ge. lia.
Qed.

(** Lower bound on the binary exponent chosen by [ceil_div_double]. *)
Lemma ceil_div_exponent (a b : Z) : 0 < a -> 0 < b ->
  let E := if (b <=? a)%Z then Z.log2 (a / b) else (- Z.log2_up ((b + a - 1) / a))%Z in
  (0 <= E -> b * 2^E <= a) /\ (E < 0 -> b <= a * 2^(-E)) /\ (b <= a -> 0 <= E /\ a / b < 2^(E+1)).
Proof.
  intros Ha Hb. cbn zeta. destruct (Z.leb_spec b a) as [Hba|Hab].
  - assert (Hq : 0 < a / b) by (apply Z.div_str_pos; lia).
    pose proof (Z.log2_spec (a / b) Hq) as [Hl Hu].
    pose proof (Z.log2_nonneg (a / b)).
    split; [|split; [lia|split; [lia|]]].
    + intros _. pose proof (Z.mul_div_le a b Hb). nia.
    + rewrite Z.add_1_r. exact Hu.
  - set (c := (b + a - 1) / a).
    assert (Hc2 : 2 <= c) by (unfold c; apply Z.div_le_lower_bound; lia).
    assert (Hc : 1 < c) by lia.
    pose proof (Z.log2_up_spec c Hc) as [_ Hup].
    pose proof (Z.log2_up_pos c Hc).
    assert (Hac : b <= a * c).
    { unfold c. pose proof (Z.div_mod (b + a - 1) a ltac:(lia)).
      pose proof (Z.mod_pos_bound (b + a - 1) a Ha). lia. }
    split; [lia|]. split; [|lia].
    intros _. rewrite Z.opp_involutive. nia.
Qed.

Lemma ceil_div_double_exact (a b : Z) :
  0 <= a < 2^53 -> 1 <= b < 2^1024 -> ceil_div_double a b = NFin ((a + b - 1) / b).
Proof.
  intros Ha Hb. unfold ceil_div_double.
  destruct (Z.eqb_spec a 0) as [->|Ha0].
  { f_equal. symmetry. apply Z.div_small. lia. }
  rewrite Z.abs_eq by lia. cbn zeta.
  destruct (ceil_div_exponent a b ltac:(lia) ltac:(lia)) as (HE1 & HE2 & HE3).
  revert HE1 HE2 HE3.
  generalize (if b <=? a then Z.log2 (a / b) else - Z.log2_up ((b + a - 1) / a)) as E.
  intros E HE1 HE2 HE3.
  assert (H53 : 2^53 = 2^52 * 2) by reflexivity.
  destruct (Z.leb_spec 0 (Z.max (E - 52) (-1074))) as [He|He].
  - (* the quotient is at least 2^52: only a / 1 with a >= 2^52 *)
    assert (HE52 : 52 <= E) by lia.
    assert (Hb1 : b = 1).
    { assert (Hp : 2^52 <= 2^E) by (apply Z.pow_le_mono_r; lia).
      specialize (HE1 ltac:(lia)). nia. }
    subst b.
    assert (HEeq : E = 52).
    { destruct (Z.leb_spec 1 a) as [H1|H1]; [|lia].
      destruct (HE3 H1) as [_ Hlt]. rewrite Z.div_1_r in Hlt.
      assert (Hp : 2^53 <= 2^(E+1)) by (apply Z.pow_le_mono_r; lia).
      destruct (Z.eq_dec E 52); [assumption|].
      assert (2^54 <= 2^(E+1)) by (apply Z.pow_le_mono_r; lia).
      specialize (HE1 ltac:(lia)).
      assert (2^53 <= 2^E) by (apply Z.pow_le_mono_r; lia). lia. }
    subst E. replace (Z.max (52 - 52) (-1074)) with 0 by lia. rewrite Z.pow_0_r, !Z.mul_1_l, !Z.mul_1_r.
    replace (round_half_even a 1) with a.
    2:{ unfold round_half_even. rewrite Z.div_1_r, Z.mod_1_r. reflexivity. }
    assert (Hbig : 2^53 < 2^1024) by (apply Z.pow_lt_mono_r; lia).
    destruct (Z.leb_spec (2^1024) a); [lia|].
    rewrite Z.sgn_pos by lia. f_equal. rewrite Z.div_1_r. lia.
  - set (e := Z.max (E - 52) (-1074)) in *.
    set (k := - e).
    assert (Hk : 0 < k) by (unfold k; lia).
    replace (- e) with k by reflexivity.
    set (P := 2^k).
    assert (HP : 0 < P) by (apply Z.pow_pos_nonneg; lia).
    assert (HbP : b < 2 * P).
    { unfold P. rewrite <- Z.pow_succ_r by lia.
      destruct (Z.max_spec (E - 52) (-1074)) as [[_ Hm]|[_ Hm]];
        unfold k, e; rewrite Hm.
      - apply Z.lt_le_trans with (2^1024); [lia|].
        apply Z.pow_le_mono_r; lia.
      - destruct (Z.leb_spec 0 E) as [HE0|HE0].
        + specialize (HE1 HE0).
          assert (Hs : 2^53 = 2^Z.succ (- (E - 52)) * 2^E)
            by (rewrite <- Z.pow_add_r by lia; f_equal; lia).
          pose proof (Z.pow_pos_nonneg 2 E ltac:(lia) HE0). nia.
        + specialize (HE2 HE0).
          assert (Hs : 2^Z.succ (- (E - 52)) = 2^53 * 2^(- E))
            by (rewrite <- Z.pow_add_r by lia; f_equal; lia).
          pose proof (Z.pow_pos_nonneg 2 (- E) ltac:(lia) ltac:(lia)). nia. }
    replace (0 <? a) with true by (symmetry; apply Z.ltb_lt; lia).
    destruct (round_half_even_spec (a * P) b ltac:(lia)) as [F1 _].
    set (m := round_half_even (a * P) b) in *. clearbody m.
    pose proof (Z.div_mod a b ltac:(lia)) as Hab. pose proof (Z.mod_pos_bound a b ltac:(lia)) as Hr.
    set (n := a / b) in *. set (r := a mod b) in *. clearbody n r.
    assert (Hn : 0 <= n).
    { destruct (Z.leb_spec 0 n); [assumption|]. nia. }
    destruct (Z.eq_dec r 0) as [Hr0|Hr0].
    + assert (Hm : m = n * P).
      { subst r. rewrite Z.add_0_r in Hab. subst a.
        replace (m * b - b * n * P) with ((m - n * P) * b) in F1 by ring.
        rewrite Z.abs_mul, (Z.abs_eq b) in F1 by lia.
        destruct (Z.eq_dec (m - n * P) 0); [lia|].
        assert (1 <= Z.abs (m - n * P)) by lia. nia. }
      f_equal. rewrite Hm, <- Z.mul_opp_l, Z.div_mul, Z.opp_involutive by lia.
      apply Z.div_unique with (b - 1); lia.
    + subst a.
      assert (Hlo : n * P < m).
      { destruct (Z.ltb_spec (n * P) m) as [|Hle]; [assumption|exfalso].
        assert (m * b <= n * P * b) by nia.
        assert (P <= r * P) by nia.
        assert (- b <= 2 * (m * b - (b * n + r) * P)) by lia.
        nia. }
      assert (Hhi : m <= (n + 1) * P).
      { destruct (Z.leb_spec m ((n + 1) * P)) as [|Hgt]; [assumption|exfalso].
        assert ((n + 1) * P * b + b <= m * b) by nia.
        assert (r * P <= (b - 1) * P) by nia.
        assert (2 * (m * b - (b * n + r) * P) <= b) by lia.
        nia. }
      f_equal.
      replace ((- m) / P) with (- (n + 1)).
      2:{ apply Z.div_unique with ((n + 1) * P - m); lia. }
      rewrite Z.opp_involutive. apply Z.div_unique with (r - 1); lia.
Qed.

Lemma parseInt_range (s : jstr) (z : Z) : js_parseInt s = NFin z -> Z.abs z < 2^1024.
Proof.
  unfold js_parseInt. destruct (parse_int_value s); [apply number_of_int_range|discriminate].
Qed.

Lemma page_shape (x : num) :
  js_max1 (js_or x (NFin 1)) = NInf false \/
  exists p, js_max1 (js_or x (NFin 1)) = NFin p /\ 1 <= p.
Proof.
  destruct x as [z|[]|]; cbn [js_or js_max1].
  - destruct (z =? 0); cbn [js_max1]; right; eexists; split; [reflexivity|lia|reflexivity|lia].
  - right. exists 1. split; [reflexivity|lia].
  - left. reflexivity.
  - right. exists 1. split; [reflexivity|lia].
Qed.

Lemma limit_shape (x d : num) :
  (forall z, x = NFin z -> Z.abs z < 2^1024) ->
  (forall z, d = NFin z -> Z.abs z < 2^1024) ->
  js_max1 (js_or x d) = NNaN \/ js_max1 (js_or x d) = NInf false \/
  exists l, js_max1 (js_or x d) = NFin l /\ 1 <= l < 2^1024.
Proof.
  intros Hx Hd.
  assert (H1 : 1 < 2^1024) by (apply Z.pow_gt_1; lia).
  assert (Hy : forall z, js_or x d = NFin z -> Z.abs z < 2^1024).
  { intros z. destruct x as [v|b|]; cbn [js_or].
    - destruct (v =? 0); [apply Hd|intros E; apply Hx; exact E].
    - discriminate.
    - apply Hd. }
  revert Hy. generalize (js_or x d) as y. intros y Hy.
  destruct y as [z|[]|]; cbn [js_max1].
  - right; right. exists (Z.max 1 z). specialize (Hy z eq_refl). split; [reflexivity|lia].
  - right; right. exists 1. split; [reflexivity|lia].
  - right; left. reflexivity.
  - left. reflexivity.
Qed.

Lemma last_page_arith (p l t : Z) : 1 <= p -> 1 <= l -> 0 <= t ->
  ((p - 1) * l < t <-> p <= (t + l - 1) / l).
Proof.
  intros Hp Hl Ht. split; intros H.
  - apply Z.div_le_lower_bound; lia.
  - pose proof (Z.mul_div_le (t + l - 1) l ltac:(lia)). nia.
Qed.

(** getPaginationParams on decimal numerals up to 2^53 (exact doubles):
    a numeral n gives page n and limit n, except that a zero numeral
    ("0", "00", ...) is falsy and gives the defaults 1 and
    max(1, defaultLimit); a negative numeral gives page 1 and limit 1 (not
    the default); absent parameters give page 1, limit max(1, defaultLimit)
    and skip 0. *)
Theorem pagination_numerals (ds : list N) (q : option jstr) (defaultLimit : Z)
  (Hdigits : Forall (fun d => (d < 10)%N) ds) (Hne : ds <> [])
  (Hsafe : Z.of_N (digits_value ds) <= 2^53) :
  let n := Z.of_N (digits_value ds) in
  pg_page (getPaginationParams (Some (render_digits ds)) q (NFin defaultLimit))
    = NFin (if n =? 0 then 1 else n) /\
  pg_limit (getPaginationParams q (Some (render_digits ds)) (NFin defaultLimit))
    = NFin (if n =? 0 then Z.max 1 defaultLimit else n) /\
  pg_page (getPaginationParams (Some (45%N :: render_digits ds)) q (NFin defaultLimit)) = NFin 1 /\
  pg_limit (getPaginationParams q (Some (45%N :: render_digits ds)) (NFin defaultLimit))
    = NFin (if n =? 0 then Z.max 1 defaultLimit else 1) /\
  getPaginationParams None None (NFin defaultLimit)
    = mkPagination (NFin 1) (NFin (Z.max 1 defaultLimit)) (NFin 0).
Proof.
  destruct (parseInt_digits ds Hdigits Hne) as [Hp Hm]. cbn zeta.
  unfold getPaginationParams. cbn [pg_page pg_limit query_arg default].
  unfold js_parseInt, id. rewrite Hp, Hm.
  rewrite !number_of_int_small by lia.
  replace (parse_int_value (js "undefined")) with (@None Z) by reflexivity.
  cbn [js_or js_max1 js_sub js_mul].
  rewrite number_of_int_small by lia. cbn [js_mul]. rewrite number_of_int_small by lia.
  assert (Hn : 0 <= Z.of_N (digits_value ds)) by lia.
  destruct (Z.eqb_spec (Z.of_N (digits_value ds)) 0) as [E|E].
  - rewrite E. cbn [Z.opp Z.eqb js_max1]. repeat split.
  - replace (- Z.of_N (digits_value ds) =? 0) with false by (symmetry; apply Z.eqb_neq; lia).
    cbn [js_max1]. repeat split; f_equal; lia.
Qed.

(** Pagination of the list routes, with JavaScript's number arithmetic:
    for a document count total below 2^53 and totalPages =
    Math.ceil(total / limit), the offset skip falls inside the collection
    (skip < total) exactly when page <= totalPages, whatever the query
    strings (huge numerals rounded or parsed as Infinity included) and the
    default limit. *)
Theorem pagination_last_page (qpage qlimit : option jstr) (defaultLimit : num) (total : Z)
  (Htotal : 0 <= total < 2^53)
  (Hdef : forall d, defaultLimit = NFin d -> Z.abs d < 2^1024) :
  let p := getPaginationParams qpage qlimit defaultLimit in
  num_lt (pg_skip p) (NFin total) = num_le (pg_page p) (totalPages total (pg_limit p)).
Proof.
  cbn zeta. unfold getPaginationParams, totalPages. cbn [pg_skip pg_page pg_limit].
  pose proof (page_shape (js_parseInt (query_arg qpage))) as Hpage.
  pose proof (limit_shape (js_parseInt (query_arg qlimit)) defaultLimit
                (parseInt_range (query_arg qlimit)) Hdef) as Hlimit.
  revert Hpage Hlimit.
  generalize (js_max1 (js_or (js_parseInt (query_arg qpage)) (NFin 1))) as page.
  generalize (js_max1 (js_or (js_parseInt (query_arg qlimit)) defaultLimit)) as limit.
  intros limit page Hpage Hlimit.
  assert (H53 : 2^53 < 2^1024) by (apply Z.pow_lt_mono_r; lia).
  destruct Hlimit as [->|[->|(l & -> & Hl)]];
    destruct Hpage as [->|(p & -> & Hp)].
  - reflexivity.
  - cbn [js_sub js_mul js_ceil_div num_le].
    destruct (number_of_int (p - 1)) as [|[]|]; reflexivity.
  - reflexivity.
  - cbn [js_sub js_mul js_ceil_div num_le]. rewrite (proj2 (Z.leb_gt p 0)) by lia.
    destruct (number_of_int_nonneg (p - 1) ltac:(lia)) as [[_ ->]|[_ [->|(v & -> & Hv)]]];
      cbn [js_mul].
    + destruct (p - 1 =? 0); [reflexivity|].
      rewrite (proj2 (Z.ltb_ge (p - 1) 0)) by lia. reflexivity.
    + reflexivity.
    + destruct (v =? 0); [reflexivity|].
      rewrite (proj2 (Z.ltb_ge v 0)) by lia. reflexivity.
  - cbn [js_sub js_mul js_ceil_div].
    rewrite (proj2 (Z.eqb_neq l 0)) by lia. rewrite (proj2 (Z.ltb_lt 0 l)) by lia.
    rewrite (proj2 (Z.ltb_ge l 0)) by lia. rewrite ceil_div_double_exact by lia. reflexivity.
  - cbn [js_sub js_ceil_div]. rewrite (proj2 (Z.ltb_lt 0 l)) by lia.
    rewrite ceil_div_double_exact by lia. cbn [num_le].
    pose proof (last_page_arith p l total Hp ltac:(lia) ltac:(lia)) as A.
    destruct (number_of_int_nonneg (p - 1) ltac:(lia)) as [[Hp1 ->]|[Hp1 [->|(v & -> & Hv)]]].
    + cbn [js_mul].
      destruct (number_of_int_nonneg ((p - 1) * l) ltac:(nia)) as [[_ ->]|[Hbig _]].
      * cbn [num_lt]. destruct (Z.ltb_spec ((p - 1) * l) total);
          destruct (Z.leb_spec p ((total + l - 1) / l)); try reflexivity; exfalso; lia.
      * rewrite skip_not_lt by lia. symmetry. apply Z.leb_gt.
        destruct (Z.leb_spec p ((total + l - 1) / l)) as [Hle|]; [|lia].
        apply A in Hle. lia.
    + cbn [js_mul]. rewrite (proj2 (Z.eqb_neq l 0)) by lia.
      rewrite (proj2 (Z.ltb_ge l 0)) by lia. cbn [xorb num_lt].
      symmetry. apply Z.leb_gt.
      destruct (Z.leb_spec p ((total + l - 1) / l)) as [Hle|]; [|lia].
      apply A in Hle. nia.
    + cbn [js_mul]. rewrite skip_not_lt by nia. symmetry. apply Z.leb_gt.
      destruct (Z.leb_spec p ((total + l - 1) / l)) as [Hle|]; [|lia].
      apply A in Hle. nia.
Qed.

Lemma pagination_last_page_witness :
  (0 <= 50 < 2^53) /\
  (forall d, NFin 24 = NFin d -> Z.abs d < 2^1024) /\
  num_lt (pg_skip (getPaginationParams (Some (js "3")) None (NFin 24))) (NFin 50) =
  num_le (pg_page (getPaginationParams (Some (js "3")) None (NFin 24)))
         (totalPages 50 (pg_limit (getPaginationParams (Some (js "3")) None (NFin 24)))).
Proof.
  assert (Hd : forall d, NFin 24 = NFin d -> Z.abs d < 2^1024).
  { intros d E. injection E as <-. reflexivity. }
  split; [lia|]. split; [exact Hd|].
  exact (pagination_last_page (Some (js "3")) None (NFin 24) 50 ltac:(lia) Hd).
Defined.

Lemma pagination_numerals_witness :
  Forall (fun d => (d < 10)%N) [4%N; 2%N] /\ [4%N; 2%N] <> [] /\
  Z.of_N (digits_value [4%N; 2%N]) <= 2^53 /\
  pg_page (getPaginationParams (Some (render_digits [4%N; 2%N])) None (NFin 24)) = NFin 42.
Proof.
  split; [repeat constructor; lia|]. split; [discriminate|]. split; [vm_compute; discriminate|].
  destruct (pagination_numerals [4%N; 2%N] None 24) as [H _];
    [repeat constructor; lia|discriminate|vm_compute; discriminate|].
  rewrite H. reflexivity.
Defined.

End Pagination.
(** ** Chapter counts *)

Lemma build_countMap_lookup (f : jstr -> nat) (ks : list jstr) (m : gmap jstr nat) (x : jstr) :
  fold_left (fun m c => <[fst c := snd c]> m) (map (fun k => (k, f k)) ks) m !! x =
  if decide (x ∈ ks) then Some (f x) else m !! x.
Proof.
  revert m; induction ks as [|k ks IH]; intros m; cbn [map fold_left fst snd].
  - destruct (decide (x ∈ [])) as [Hx|]; [inversion Hx|reflexivity].
  - rewrite IH. destruct (decide (x ∈ ks)) as [Hin|Hout].
    + rewrite decide_True; [reflexivity|]. constructor; assumption.
    + destruct (decide (k = x)) as [->|Hne].
      * rewrite lookup_insert_eq, decide_True; [reflexivity|]. constructor.
      * rewrite lookup_insert_ne by assumption.
        rewrite decide_False; [reflexivity|].
        intros Hx. apply elem_of_cons in Hx as [->|Hx]; [congruence|contradiction].
Qed.

Lemma count_in_matched (id : jstr) (ids : list jstr) (cs : list Chapter) :
  id ∈ ids ->
  count_in id (List.filter (fun c => bool_decide (manga_id c ∈ ids)) cs) = count_in id cs.
Proof.
  intros Hid. induction cs as [|c cs IH]; [reflexivity|].
  unfold count_in in *. cbn [List.filter].
  destruct (bool_decide (manga_id c ∈ ids)) eqn:Hm.
  - cbn [List.filter]. destruct (jstr_eqb (manga_id c) id); cbn [length]; lia.
  - destruct (jstr_eqb (manga_id c) id) eqn:He; [|assumption].
    exfalso. unfold jstr_eqb in He. apply bool_decide_eq_true in He.
    apply bool_decide_eq_false in Hm. rewrite He in Hm. contradiction.
Qed.

Lemma count_in_absent (id : jstr) (cs : list Chapter) :
  id ∉ map manga_id cs -> count_in id cs = 0.
Proof.
  induction cs as [|c cs IH]; intros Hn; [reflexivity|].
  unfold count_in in *. cbn [List.filter map] in *.
  destruct (jstr_eqb (manga_id c) id) eqn:He.
  - exfalso. unfold jstr_eqb in He. apply bool_decide_eq_true in He.
    apply Hn. rewrite He. constructor.
  - apply IH. intros Hi. apply Hn. constructor. assumption.
Qed.

(** attachChapterCounts: the result lists the given mangas in their order,
    each with the number of chapters whose manga_id is its _id (0 when it
    has none). An empty list gives [] without querying the database; any
    other list fails (rejects) when the database is unavailable. *)
Theorem attachChapterCounts_spec (w : World) (ms : list Manga) :
  attachChapterCounts w ms =
  if bool_decide (ms = []) || db_up w
  then Some (map (fun m => mkMangaCount m (count_in (m_id m) (chapters w))) ms)
  else None.
Proof.
  destruct ms as [|m0 ms0]; [reflexivity|].
  rewrite bool_decide_false by discriminate. cbn [orb].
  unfold attachChapterCounts. destruct (db_up w); [|reflexivity].
  f_equal. apply map_ext_in. intros m Hm. f_equal.
  unfold build_countMap, aggregate_counts. rewrite build_countMap_lookup.
  assert (Hid : m_id m ∈ map m_id (m0 :: ms0)).
  { apply list_elem_of_In, in_map, Hm. }
  rewrite count_in_matched by exact Hid.
  destruct (decide _) as [Hin|Hout].
  - reflexivity.
  - rewrite lookup_empty. cbn [default].
    rewrite <- (count_in_matched _ _ _ Hid). symmetry. apply count_in_absent.
    intros Hx. apply Hout, elem_of_remove_dups, Hx.
Qed.

(** ** Webhook *)

Lemma find_by_email_some (us : gmap jstr User) (em id : jstr) :
  find_by_email us em = Some id -> exists u, us !! id = Some u /\ email u = em.
Proof.
  unfold find_by_email. destruct (List.find _ _) as [[i u]|] eqn:F; [|discriminate].
  intros H. cbn in H. injection H as <-.
  apply find_some in F as [Hin Hp]. apply bool_decide_eq_true in Hp.
  apply list_elem_of_In, elem_of_map_to_list in Hin. exists u. split; assumption.
Qed.

Lemma find_by_email_unique (us : gmap jstr User) (em id : jstr) (u : User) :
  us !! id = Some u -> email u = em ->
  (forall id' u', us !! id' = Some u' -> email u' = em -> id' = id) ->
  find_by_email us em = Some id.
Proof.
  intros Hu Hem Huniq. unfold find_by_email.
  destruct (List.find _ _) as [[i u']|] eqn:F.
  - apply find_some in F as [Hin Hp]. apply bool_decide_eq_true in Hp.
    apply list_elem_of_In, elem_of_map_to_list in Hin.
    cbn. f_equal. exact (Huniq i u' Hin Hp).
  - exfalso. apply elem_of_map_to_list, list_elem_of_In in Hu.
    pose proof (find_none _ _ F _ Hu) as Hp. cbn in Hp.
    unfold jstr_eqb in Hp. rewrite bool_decide_eq_false in Hp. contradiction.
Qed.

(** POST /trakteer-webhook: the only change it ever makes is to set
    isPremium of at most one account, the first in the store's order whose
    e-mail is the supporter's (findOneAndUpdate), and only for status
    "Success" with the database up; no account is added or removed, no
    downloadCount, e-mail, guest counter, manga or chapter changes. It
    answers 500 exactly when a "Success" finds the database down, 200
    otherwise. *)
Theorem webhook_effect (w : World) (em st : jstr) :
  let '(w', evs) := serve_webhook w em st in
  let upgrade := bool_decide (st = js "Success") && db_up w in
  db_up w' = db_up w /\ guestCache w' = guestCache w /\ mangas w' = mangas w /\
  chapters w' = chapters w /\
  (forall id, match users w !! id, users w' !! id with
              | Some u, Some u' =>
                  downloadCount u' = downloadCount u /\ email u' = email u /\
                  isPremium u' = isPremium u ||
                    upgrade && bool_decide (find_by_email (users w) em = Some id)
              | None, None => True
              | _, _ => False
              end) /\
  (forall id, find_by_email (users w) em = Some id ->
     exists u, users w !! id = Some u /\ email u = em) /\
  evs = [SendStatus (if bool_decide (st = js "Success") && negb (db_up w) then 500 else 200)].
Proof.
  unfold serve_webhook.
  change (jstr_eqb st (js "Success")) with (bool_decide (st = js "Success")).
  destruct (bool_decide (st = js "Success")); destruct (db_up w) eqn:Hdb; cbn [andb negb].
  - destruct (find_by_email (users w) em) as [i|] eqn:F.
    + do 4 (split; [cbn; congruence|]).
      split; [|split; [intros id; rewrite <- F; apply find_by_email_some|reflexivity]].
      intros id. cbn [users with_users fst].
      destruct (decide (id = i)) as [->|Hne].
      * rewrite lookup_alter_eq. destruct (users w !! i) as [u|]; [|exact I].
        cbn. rewrite bool_decide_eq_true_2 by reflexivity. rewrite orb_true_r.
        repeat split.
      * rewrite lookup_alter_ne by congruence.
        destruct (users w !! id) as [u|]; [|exact I].
        rewrite bool_decide_eq_false_2 by congruence. rewrite orb_false_r. repeat split.
    + do 4 (split; [cbn; congruence|]).
      split; [|split; [intros id; rewrite <- F; apply find_by_email_some|reflexivity]].
      intros id. destruct (users w !! id) as [u|]; [|exact I].
      rewrite bool_decide_eq_false_2 by congruence. rewrite orb_false_r. repeat split.
  - do 4 (split; [cbn; congruence|]).
    split; [|split; [intros id; apply find_by_email_some|reflexivity]].
    intros id. destruct (users w !! id) as [u|]; [|exact I]. rewrite orb_false_r. repeat split.
  - do 4 (split; [cbn; congruence|]).
    split; [|split; [intros id; apply find_by_email_some|reflexivity]].
    intros id. destruct (users w !! id) as [u|]; [|exact I]. rewrite orb_false_r. repeat split.
  - do 4 (split; [cbn; congruence|]).
    split; [|split; [intros id; apply find_by_email_some|reflexivity]].
    intros id. destruct (users w !! id) as [u|]; [|exact I]. rewrite orb_false_r. repeat split.
Qed.

(** A "Success" webhook, then a download or /stats request from the account
    with the supporter's e-mail, when it is the only account with that
    e-mail: it is admitted by checkDownloadLimit without being recorded for
    counting, whatever its downloadCount, and /stats reports it as premium
    with limit "∞". *)
Theorem webhook_then_premium (v : Variant) (w : World) (em id : jstr) (u : User) (r : Req)
  (Hdb : db_up w = true) (Hu : users w !! id = Some u) (Hem : email u = em)
  (Huniq : forall id' u', users w !! id' = Some u' -> email u' = em -> id' = id)
  (Hr : r_user r = Some id) :
  let w' := fst (serve_webhook w em (js "Success")) in
  checkDownloadLimit v w' r = (Next, r) /\
  stats v w' r = stats_body (js "premium") (downloadCount u) (JStr infinity_sign).
Proof.
  cbn zeta. unfold serve_webhook.
  replace (jstr_eqb (js "Success") (js "Success")) with true by reflexivity.
  rewrite Hdb, (find_by_email_unique (users w) em id u Hu Hem Huniq). cbn [fst].
  assert (Hl : users (with_users (alter make_premium id (users w)) w) !! id
               = Some (mkUser true (downloadCount u) (email u))).
  { cbn [users with_users]. rewrite lookup_alter_eq, Hu. reflexivity. }
  split.
  - unfold checkDownloadLimit. rewrite Hr. cbn [db_up with_users]. rewrite Hdb. cbn [negb].
    rewrite Hl. reflexivity.
  - unfold stats. rewrite Hr. cbn [db_up with_users]. rewrite Hdb. cbn [negb].
    rewrite Hl. reflexivity.
Qed.

Lemma webhook_then_premium_witness :
  let w := world0 ∅ {[ js "u1" := mkUser false 50 (js "a@example.com") ]} in
  db_up w = true /\
  users w !! js "u1" = Some (mkUser false 50 (js "a@example.com")) /\
  email (mkUser false 50 (js "a@example.com")) = js "a@example.com" /\
  r_user (user_req (js "u1")) = Some (js "u1") /\
  checkDownloadLimit part1 (fst (serve_webhook w (js "a@example.com") (js "Success")))
    (user_req (js "u1")) = (Next, user_req (js "u1")).
Proof.
  cbn zeta. split; [reflexivity|]. split; [apply lookup_singleton_eq|].
  split; [reflexivity|]. split; [reflexivity|].
  refine (proj1 (webhook_then_premium part1 (world0 ∅ {[ js "u1" := mkUser false 50 (js "a@example.com") ]}) (js "a@example.com") (js "u1")
           (mkUser false 50 (js "a@example.com")) (user_req (js "u1")) eq_refl _ eq_refl _ eq_refl)).
  - apply lookup_singleton_eq.
  - intros id' u' H _. cbn in H. apply lookup_singleton_Some in H as [H _]. symmetry. exact H.
Defined.

(** ** Auth middleware *)

Lemma starts_with_app (pre t : jstr) : starts_with pre (pre ++ t) = true.
Proof.
  induction pre as [|p pre IH]; [reflexivity|]. cbn [app starts_with].
  rewrite N.eqb_refl, IH. reflexivity.
Qed.

Lemma starts_with_true (pre s : jstr) : starts_with pre s = true -> exists b, s = pre ++ b.
Proof.
  revert s; induction pre as [|p pre IH]; intros s H; [exists s; reflexivity|].
  destruct s as [|c s]; [discriminate H|]. cbn [starts_with] in H.
  apply andb_prop in H as [Hp Hs]. apply N.eqb_eq in Hp as ->.
  destruct (IH s Hs) as [b ->]. exists b. reflexivity.
Qed.

Lemma split_fuel_no_occurrence (sep t : jstr) (n : nat) :
  (forall a b, t <> a ++ sep ++ b) -> length t <= n -> split_fuel n sep t = [t].
Proof.
  revert t; induction n as [|n IH]; intros t Hocc Hlen.
  - destruct t; [reflexivity|cbn in Hlen; lia].
  - destruct t as [|c t]; [reflexivity|]. cbn [split_fuel].
    destruct (starts_with sep (c :: t)) eqn:Hs.
    + exfalso. destruct (starts_with_true _ _ Hs) as [b Hb]. apply (Hocc [] b), Hb.
    + rewrite IH; [reflexivity| |cbn in Hlen; lia].
      intros a b Ht. apply (Hocc (c :: a) b). rewrite Ht. reflexivity.
Qed.

Lemma split_fuel_S_cons (n : nat) (sep : jstr) (c : N) (t : jstr) :
  split_fuel (S n) sep (c :: t) =
  if starts_with sep (c :: t) then [] :: split_fuel n sep (drop (length sep) (c :: t))
  else match split_fuel n sep t with
       | h :: rest => (c :: h) :: rest
       | [] => [[c]]
       end.
Proof. reflexivity. Qed.

(** [authHeader.split('Bearer ')[1]] on "Bearer " followed by a token that
    does not itself contain "Bearer " is that token. *)
Theorem bearer_token_roundtrip (t : jstr) (Ht : forall a b, t <> a ++ bearer ++ b) :
  bearer_token (bearer ++ t) = Some t.
Proof.
  unfold bearer_token, js_split. rewrite length_app.
  replace (length bearer + length t) with (S (6 + length t)) by (cbn; lia).
  destruct (bearer ++ t) as [|c l] eqn:E; [discriminate E|].
  rewrite split_fuel_S_cons, <- E, starts_with_app.
  rewrite drop_app_length.
  rewrite split_fuel_no_occurrence; [reflexivity|assumption|lia].
Qed.

Lemma token_without_bearer (t : jstr) :
  length t < length bearer -> forall a b, t <> a ++ bearer ++ b.
Proof.
  intros Hl a b E. apply (f_equal (@length N)) in E. rewrite !length_app in E. lia.
Qed.

Lemma bearer_token_roundtrip_witness :
  (forall a b, js "tok-1" <> a ++ bearer ++ b) /\
  bearer_token (bearer ++ js "tok-1") = Some (js "tok-1").
Proof.
  assert (H : forall a b, js "tok-1" <> a ++ bearer ++ b)
    by (apply token_without_bearer; cbn; lia).
  split; [exact H|]. exact (bearer_token_roundtrip (js "tok-1") H).
Defined.

(** The auth middleware leaves req.user null (the request goes on as a
    guest) exactly when there is no "Bearer " authorization header, the token
    does not verify, or the database is down; in those cases it creates and
    changes nothing. *)
Theorem auth_null_user (verify : jstr -> option Claims) (w : World) (gids : gmap jstr jstr)
  (new_id : jstr) (authHeader : option jstr) :
  let '(w', gids', user) := auth_middleware verify w gids new_id authHeader in
  (user = None <->
   match authHeader with
   | Some h => starts_with bearer h = false \/ bearer_token h ≫= verify = None \/ db_up w = false
   | None => True
   end) /\
  (user = None -> w' = w /\ gids' = gids).
Proof.
  unfold auth_middleware. destruct authHeader as [h|]; [|tauto].
  destruct (starts_with bearer h); [|tauto].
  destruct (bearer_token h ≫= verify) as [decoded|]; [|tauto].
  destruct (db_up w); [|tauto].
  destruct (find_by_googleId w gids (uid decoded));
    (split; [split; [intros Hn; discriminate Hn|intros [Hc|[Hc|Hc]]; discriminate Hc]
            |intros Hn; discriminate Hn]).
Qed.

Lemma find_by_googleId_none (w : World) (gids : gmap jstr jstr) (g : jstr) :
  (forall id u, users w !! id = Some u -> gids !! id <> Some g) ->
  find_by_googleId w gids g = None.
Proof.
  intros Hn. unfold find_by_googleId.
  destruct (List.find _ _) as [[i u]|] eqn:F; [|reflexivity].
  apply find_some in F as [Hin Hp]. apply bool_decide_eq_true in Hp.
  apply list_elem_of_In, elem_of_map_to_list in Hin.
  exfalso. exact (Hn i u Hin Hp).
Qed.

Lemma find_by_googleId_unique (w : World) (gids : gmap jstr jstr) (g id : jstr) :
  is_Some (users w !! id) -> gids !! id = Some g ->
  (forall id', is_Some (users w !! id') -> gids !! id' = Some g -> id' = id) ->
  find_by_googleId w gids g = Some id.
Proof.
  intros [u Hu] Hg Huniq. unfold find_by_googleId.
  destruct (List.find _ _) as [[i u']|] eqn:F.
  - apply find_some in F as [Hin Hp]. apply bool_decide_eq_true in Hp.
    apply list_elem_of_In, elem_of_map_to_list in Hin.
    cbn. f_equal. apply Huniq; [eexists; exact Hin|exact Hp].
  - exfalso. apply elem_of_map_to_list, list_elem_of_In in Hu.
    pose proof (find_none _ _ F _ Hu) as Hp. cbn in Hp.
    rewrite bool_decide_eq_false in Hp. contradiction.
Qed.

Lemma auth_bearer_unfold (verify : jstr -> option Claims) (w : World)
  (gids : gmap jstr jstr) (new_id t : jstr) (decoded : Claims) :
  (forall a b, t <> a ++ bearer ++ b) -> verify t = Some decoded -> db_up w = true ->
  auth_middleware verify w gids new_id (Some (bearer ++ t)) =
  match find_by_googleId w gids (uid decoded) with
  | Some id => (w, gids, Some id)
  | None =>
      (with_users (<[new_id := mkUser false 0 (c_email decoded)]> (users w)) w,
       <[new_id := uid decoded]> gids, Some new_id)
  end.
Proof.
  intros Ht Hv Hdb. unfold auth_middleware.
  rewrite starts_with_app, (bearer_token_roundtrip t Ht). cbn [mbind option_bind].
  rewrite Hv, Hdb. reflexivity.
Qed.

(** First sign-in with a verified token whose Google uid no account has:
    the middleware creates one account, non-premium with downloadCount 0,
    under the fresh id, touches no other account, and sets req.user to it;
    checkDownloadLimit then admits the request as a registered user (no
    404), and signing in again with the same token reuses that account. *)
Theorem auth_first_sign_in (verify : jstr -> option Claims) (w : World)
  (gids : gmap jstr jstr) (new_id t : jstr) (decoded : Claims)
  (Ht : forall a b, t <> a ++ bearer ++ b) (Hv : verify t = Some decoded)
  (Hdb : db_up w = true) (Hnew : users w !! new_id = None)
  (Hunknown : forall id u, users w !! id = Some u -> gids !! id <> Some (uid decoded)) :
  let '(w', gids', user) := auth_middleware verify w gids new_id (Some (bearer ++ t)) in
  user = Some new_id /\
  users w' !! new_id = Some (mkUser false 0 (c_email decoded)) /\
  (forall id, id <> new_id -> users w' !! id = users w !! id) /\
  (forall v r, r_user r = user ->
     checkDownloadLimit v w' r = (Next, set_userDoc (new_id, mkUser false 0 (c_email decoded)) r)) /\
  (forall new_id', auth_middleware verify w' gids' new_id' (Some (bearer ++ t)) = (w', gids', user)).
Proof.
  rewrite (auth_bearer_unfold verify w gids new_id t decoded Ht Hv Hdb).
  rewrite (find_by_googleId_none w gids _ Hunknown).
  split; [reflexivity|]. split; [cbn; apply lookup_insert_eq|].
  split; [intros id Hid; cbn; apply lookup_insert_ne; congruence|].
  split.
  - intros v r Hr. unfold checkDownloadLimit. rewrite Hr. cbn [db_up users with_users].
    rewrite Hdb, lookup_insert_eq. reflexivity.
  - intros new_id'.
    rewrite (auth_bearer_unfold verify
               (with_users (<[new_id := mkUser false 0 (c_email decoded)]> (users w)) w)
               _ new_id' t decoded Ht Hv Hdb).
    rewrite (find_by_googleId_unique _ _ _ new_id); [reflexivity| | |].
    + cbn. rewrite lookup_insert_eq. eexists; reflexivity.
    + apply lookup_insert_eq.
    + intros id' [u' Hu'] Hg. cbn in Hu'.
      destruct (decide (id' = new_id)) as [->|Hne]; [reflexivity|].
      rewrite lookup_insert_ne in Hu' by congruence.
      rewrite lookup_insert_ne in Hg by congruence.
      exfalso. exact (Hunknown id' u' Hu' Hg).
Qed.

Lemma auth_first_sign_in_witness :
  (forall a b, js "tok-1" <> a ++ bearer ++ b) /\
  verify0 (js "tok-1") = Some (mkClaims (js "g-1") (js "a@example.com")) /\
  db_up (world0 ∅ ∅) = true /\ users (world0 ∅ ∅) !! js "u-new" = None /\
  (forall id u, users (world0 ∅ ∅) !! id = Some u -> (∅ : gmap jstr jstr) !! id <> Some (js "g-1")) /\
  (let '(w', gids', user) := auth_middleware verify0 (world0 ∅ ∅) ∅ (js "u-new")
                              (Some (bearer ++ js "tok-1")) in
   user = Some (js "u-new")).
Proof.
  assert (H : forall a b, js "tok-1" <> a ++ bearer ++ b)
    by (apply token_without_bearer; cbn; lia).
  assert (Hu : forall id u, users (world0 ∅ ∅) !! id = Some u ->
                           (∅ : gmap jstr jstr) !! id <> Some (js "g-1")).
  { intros id u _. rewrite lookup_empty. discriminate. }
  split; [exact H|]. split; [reflexivity|]. split; [reflexivity|].
  split; [apply lookup_empty|]. split; [exact Hu|].
  pose proof (auth_first_sign_in verify0 (world0 ∅ ∅) ∅ (js "u-new") (js "tok-1")
                (mkClaims (js "g-1") (js "a@example.com")) H eq_refl eq_refl
                (lookup_empty _) Hu) as Hf.
  destruct (auth_middleware _ _ _ _ _) as [[w' gids'] user].
  exact (proj1 Hf).
Defined.

(** A returning user: when exactly one account carries the token's Google
    uid, the middleware sets req.user to that account and creates or
    changes nothing. *)
Theorem auth_returning_sign_in (verify : jstr -> option Claims) (w : World)
  (gids : gmap jstr jstr) (new_id t id : jstr) (decoded : Claims)
  (Ht : forall a b, t <> a ++ bearer ++ b) (Hv : verify t = Some decoded)
  (Hdb : db_up w = true) (Hid : is_Some (users w !! id)) (Hg : gids !! id = Some (uid decoded))
  (Huniq : forall id', is_Some (users w !! id') -> gids !! id' = Some (uid decoded) -> id' = id) :
  auth_middleware verify w gids new_id (Some (bearer ++ t)) = (w, gids, Some id).
Proof.
  rewrite (auth_bearer_unfold verify w gids new_id t decoded Ht Hv Hdb).
  rewrite (find_by_googleId_unique w gids _ id Hid Hg Huniq). reflexivity.
Qed.

Lemma auth_returning_sign_in_witness :
  let w := world0 ∅ {[ js "u1" := mkUser true 3 (js "a@example.com") ]} in
  let gids : gmap jstr jstr := {[ js "u1" := js "g-1" ]} in
  (forall a b, js "tok-1" <> a ++ bearer ++ b) /\
  verify0 (js "tok-1") = Some (mkClaims (js "g-1") (js "a@example.com")) /\
  db_up w = true /\ is_Some (users w !! js "u1") /\
  gids !! js "u1" = Some (js "g-1") /\
  (forall id', is_Some (users w !! id') -> gids !! id' = Some (js "g-1") -> id' = js "u1") /\
  auth_middleware verify0 w gids (js "u-new") (Some (bearer ++ js "tok-1")) = (w, gids, Some (js "u1")).
Proof.
  cbn zeta.
  assert (H : forall a b, js "tok-1" <> a ++ bearer ++ b)
    by (apply token_without_bearer; cbn; lia).
  assert (Hs : is_Some (users (world0 ∅ {[ js "u1" := mkUser true 3 (js "a@example.com") ]})
                          !! js "u1"))
    by (exists (mkUser true 3 (js "a@example.com")); apply lookup_singleton_eq).
  assert (Hg : ({[ js "u1" := js "g-1" ]} : gmap jstr jstr) !! js "u1" = Some (js "g-1"))
    by apply lookup_singleton_eq.
  assert (Hq : forall id', is_Some (users (world0 ∅ {[ js "u1" := mkUser true 3 (js "a@example.com") ]}) !! id') ->
               ({[ js "u1" := js "g-1" ]} : gmap jstr jstr) !! id' = Some (js "g-1") -> id' = js "u1").
  { intros id' _ Hid'. apply lookup_singleton_Some in Hid'. symmetry; apply Hid'. }
  split; [exact H|]. split; [reflexivity|]. split; [reflexivity|]. split; [exact Hs|].
  split; [exact Hg|]. split; [exact Hq|].
  exact (auth_returning_sign_in verify0 (world0 ∅ {[ js "u1" := mkUser true 3 (js "a@example.com") ]})
           {[ js "u1" := js "g-1" ]} (js "u-new") (js "tok-1") (js "u1")
           (mkClaims (js "g-1") (js "a@example.com")) H eq_refl eq_refl Hs Hg Hq).
Defined.

(** ** Client address normalization *)

Lemma existsb_drop_space (p : N -> bool) (s : jstr) :
  existsb p (drop_space s) = true -> existsb p s = true.
Proof.
  induction s as [|c s IH]; [easy|]. cbn [drop_space].
  destruct (is_js_space c); [|easy]. intros H. cbn [existsb]. rewrite IH by exact H.
  apply orb_true_r.
Qed.

Lemma existsb_rev (p : N -> bool) (s : jstr) : existsb p (rev s) = existsb p s.
Proof.
  destruct (existsb p s) eqn:E.
  - apply existsb_exists in E as (x & Hx & Hp). apply existsb_exists.
    exists x. split; [apply in_rev; rewrite rev_involutive; exact Hx|exact Hp].
  - apply not_true_iff_false. intros H. apply existsb_exists in H as (x & Hx & Hp).
    apply in_rev in Hx. assert (existsb p s = true) as E'
      by (apply existsb_exists; exists x; split; assumption).
    congruence.
Qed.

Lemma existsb_js_trim (p : N -> bool) (s : jstr) :
  existsb p (js_trim s) = true -> existsb p s = true.
Proof.
  unfold js_trim. intros H. rewrite existsb_rev in H.
  apply existsb_drop_space in H. rewrite existsb_rev in H.
  apply existsb_drop_space in H. exact H.
Qed.

Lemma split_comma_first_no_comma (s : jstr) :
  existsb (fun c => (c =? comma)%N) (split_comma_first s) = false.
Proof.
  induction s as [|c s IH]; [reflexivity|]. cbn [split_comma_first].
  destruct (c =? comma)%N eqn:E; [reflexivity|]. cbn [existsb]. rewrite E, IH. reflexivity.
Qed.

(** normalize_ip never returns an address containing a comma, and applying
    it a second time changes nothing. *)
Theorem normalize_ip_idempotent (ip : jstr) :
  existsb (fun c => (c =? comma)%N) (normalize_ip ip) = false /\
  normalize_ip (normalize_ip ip) = normalize_ip ip.
Proof.
  assert (H : existsb (fun c => (c =? comma)%N) (normalize_ip ip) = false).
  { unfold normalize_ip. destruct (existsb _ ip) eqn:E; [|exact E].
    apply not_true_iff_false. intros Ht. apply existsb_js_trim in Ht.
    rewrite split_comma_first_no_comma in Ht. discriminate Ht. }
  split; [exact H|]. unfold normalize_ip at 1. rewrite H. reflexivity.
Qed.

(** normalize_ip on an X-Forwarded-For list: with a comma-free first entry
    [a], the result is [a] trimmed, whatever follows the first comma; a
    comma-free value is returned as it is, untrimmed. *)
Theorem normalize_ip_first_hop (a b : jstr)
  (Ha : existsb (fun c => (c =? comma)%N) a = false) :
  normalize_ip (a ++ comma :: b) = js_trim a /\ normalize_ip a = a.
Proof.
  assert (Hs : split_comma_first (a ++ comma :: b) = a).
  { clear -Ha. induction a as [|c a IH]; cbn [app split_comma_first].
    - rewrite N.eqb_refl. reflexivity.
    - cbn [existsb] in Ha. apply orb_false_iff in Ha as [Hc Ha].
      rewrite Hc, IH by exact Ha. reflexivity. }
  unfold normalize_ip. rewrite Ha, existsb_app. cbn [existsb]. rewrite N.eqb_refl, orb_true_r.
  rewrite Hs. split; reflexivity.
Qed.

Lemma normalize_ip_first_hop_witness :
  existsb (fun c => (c =? comma)%N) (js " 203.0.113.5 ") = false /\
  normalize_ip (js " 203.0.113.5 " ++ comma :: js " 70.41.3.18") = js "203.0.113.5".
Proof.
  split; [reflexivity|].
  rewrite (proj1 (normalize_ip_first_hop (js " 203.0.113.5 ") (js " 70.41.3.18") eq_refl)).
  reflexivity.
Defined.

(** ** /stats against checkDownloadLimit *)

(** For a guest, and for a signed-in user whose account exists while the
    database is up, the quota GET /stats reports matches what
    checkDownloadLimit decides: with a numeric limit, a download is admitted
    exactly when usage < limit; with the premium limit "∞" it is always
    admitted. *)
Theorem stats_agrees_with_limit (v : Variant) (w : World) (r : Req)
  (Hacc : match r_user r with
          | Some id => db_up w = true /\ is_Some (users w !! id)
          | None => True
          end) :
  forall ty usage lim, stats v w r = stats_body ty usage lim ->
  (fst (checkDownloadLimit v w r) = Next <->
   match lim with JNum l => usage < l | _ => True end).
Proof.
  intros ty usage lim Hs. unfold stats, checkDownloadLimit in *.
  destruct (r_user r) as [id|].
  - destruct Hacc as [Hdb [u Hu]]. rewrite Hdb, Hu in *. cbn [negb] in *.
    destruct (isPremium u).
    + injection Hs as _ _ <-. split; reflexivity.
    + injection Hs as _ <- <-.
      destruct (USER_LIMIT <=? downloadCount u) eqn:Hc; cbn [fst].
      * apply Nat.leb_le in Hc. split; [intros H; discriminate H|lia].
      * apply Nat.leb_gt in Hc. split; [intros _; exact Hc|reflexivity].
  - injection Hs as _ <- <-.
    destruct (LIMIT_GUEST_IP <=? _) eqn:Hc; cbn [fst].
    + apply Nat.leb_le in Hc. split; [intros H; discriminate H|lia].
    + apply Nat.leb_gt in Hc. split; [intros _; exact Hc|reflexivity].
Qed.

Lemma stats_agrees_with_limit_witness :
  True /\
  (fst (checkDownloadLimit part1 (world0 {[ js "10.0.0.1" := 4 ]} ∅) (guest_req None)) = Next
   <-> 4 < LIMIT_GUEST_IP).
Proof.
  split; [exact I|].
  exact (stats_agrees_with_limit part1 (world0 {[ js "10.0.0.1" := 4 ]} ∅) (guest_req None) I
           (js "guest") 4 (JNum LIMIT_GUEST_IP) eq_refl).
Defined.
